(** * ClimaSphere: the weather reconciliation and comfort-risk pipeline

    A shallow embedding of the logic of
    [frontend/src/components/WeatherForecastCard.jsx]: the NASA POWER
    sanitizer, the merge of live and reanalysis readings, the synthetic
    POWER generator, the local comfort-risk computation and the share-link
    codec.

    JavaScript numbers are modelled as exact real numbers extended with
    [NaN] and the two infinities: arithmetic is exact (no rounding error,
    no overflow) and the sign of zero is not tracked (a zero divisor
    behaves as [+0]).  [null] and [undefined] are modelled with [option].

    A parameter object of a POWER response is an association list in
    insertion order.  This is the object of the code when its keys are
    time keys, strings of digits listed in increasing order: the names of
    [Object.prototype] (such as [__proto__], which an assignment does not
    create and a read finds in every object) and key sets of which only a
    part are array indices (which [Object.keys] lists first) are outside
    the model.  The properties below that depend on it state the shape of
    the keys, and the ranges of the values that keep binary64 arithmetic
    away from overflow, as hypotheses. *)

From Stdlib Require Import Reals Lra Lia ZArith NArith List Bool Ascii String.
Import ListNotations.

Open Scope R_scope.

(** ** JavaScript numbers *)

Inductive num : Type :=
| NaN
| PInf
| NInf
| Fin (r : R).

Definition Rltb (x y : R) : bool := if Rlt_dec x y then true else false.
Definition Reqb (x y : R) : bool := if Req_dec_T x y then true else false.

(** The infinity whose sign is the sign of [r]; [NaN] when [r] is zero. *)
Definition signed_inf (r : R) : num :=
  if Rltb 0 r then PInf else if Rltb r 0 then NInf else NaN.

Definition neg (x : num) : num :=
  match x with
  | NaN => NaN
  | PInf => NInf
  | NInf => PInf
  | Fin r => Fin (- r)
  end.

Definition add (x y : num) : num :=
  match x, y with
  | NaN, _ | _, NaN => NaN
  | PInf, NInf | NInf, PInf => NaN
  | PInf, _ | _, PInf => PInf
  | NInf, _ | _, NInf => NInf
  | Fin a, Fin b => Fin (a + b)
  end.

Definition sub (x y : num) : num := add x (neg y).

Definition mul (x y : num) : num :=
  match x, y with
  | NaN, _ | _, NaN => NaN
  | Fin a, Fin b => Fin (a * b)
  | PInf, Fin r | Fin r, PInf => signed_inf r
  | NInf, Fin r | Fin r, NInf => signed_inf (- r)
  | PInf, PInf | NInf, NInf => PInf
  | PInf, NInf | NInf, PInf => NInf
  end.

Definition div (x y : num) : num :=
  match x, y with
  | NaN, _ | _, NaN => NaN
  | Fin a, Fin b => if Reqb b 0 then signed_inf a else Fin (a / b)
  | Fin _, PInf | Fin _, NInf => Fin 0
  | PInf, Fin r => if Rltb r 0 then NInf else PInf
  | NInf, Fin r => if Rltb r 0 then PInf else NInf
  | _, _ => NaN
  end.

(** [x < y] of JavaScript: false as soon as one side is [NaN]. *)
Definition lt (x y : num) : bool :=
  match x, y with
  | NaN, _ | _, NaN => false
  | Fin a, Fin b => Rltb a b
  | _, NInf => false
  | NInf, _ => true
  | PInf, _ => false
  | _, PInf => true
  end.

Definition gt (x y : num) : bool := lt y x.

(** [x <= y] of JavaScript: [!(y < x)], and false on [NaN]. *)
Definition le (x y : num) : bool :=
  match x, y with
  | NaN, _ | _, NaN => false
  | _, _ => negb (lt y x)
  end.

(** [x === y] on numbers. *)
Definition strict_eq (x y : num) : bool :=
  match x, y with
  | Fin a, Fin b => Reqb a b
  | PInf, PInf | NInf, NInf => true
  | _, _ => false
  end.

Definition Math_exp (x : num) : num :=
  match x with
  | NaN => NaN
  | PInf => PInf
  | NInf => Fin 0
  | Fin r => Fin (exp r)
  end.

Definition Math_log (x : num) : num :=
  match x with
  | NaN | NInf => NaN
  | PInf => PInf
  | Fin r => if Rltb 0 r then Fin (ln r) else if Reqb r 0 then NInf else NaN
  end.

Definition Math_sin (x : num) : num :=
  match x with Fin r => Fin (sin r) | _ => NaN end.

Definition Math_cos (x : num) : num :=
  match x with Fin r => Fin (cos r) | _ => NaN end.

Definition Math_max (x y : num) : num :=
  match x, y with
  | NaN, _ | _, NaN => NaN
  | _, _ => if lt x y then y else x
  end.

Definition Math_min (x y : num) : num :=
  match x, y with
  | NaN, _ | _, NaN => NaN
  | _, _ => if lt y x then y else x
  end.

(** [Math.round]: the nearest integer, ties towards [+Infinity]. *)
Definition Math_round (x : num) : num :=
  match x with
  | Fin r => Fin (IZR (Int_part (r + / 2)))
  | _ => x
  end.

Definition is_integer (r : R) : bool := Reqb (IZR (Int_part r)) r.

(** [Math.pow], following Number::exponentiate. *)
Definition Math_pow (b e : num) : num :=
  match e with
  | NaN => NaN
  | PInf =>
      match b with
      | NaN => NaN
      | PInf | NInf => PInf
      | Fin r => if Rltb 1 (Rabs r) then PInf
                 else if Reqb (Rabs r) 1 then NaN else Fin 0
      end
  | NInf =>
      match b with
      | NaN => NaN
      | PInf | NInf => Fin 0
      | Fin r => if Rltb 1 (Rabs r) then Fin 0
                 else if Reqb (Rabs r) 1 then NaN else PInf
      end
  | Fin y =>
      if Reqb y 0 then Fin 1 else
      match b with
      | NaN => NaN
      | PInf => if Rltb 0 y then PInf else Fin 0
      | NInf => if Rltb 0 y
                then (if is_integer y && Z.odd (Int_part y) then NInf else PInf)
                else Fin 0
      | Fin r =>
          if Rltb 0 r then Fin (Rpower r y)
          else if Reqb r 0 then (if Rltb 0 y then Fin 0 else PInf)
          else if is_integer y then Fin (powerRZ r (Int_part y))
          else NaN
      end
  end.

(** Order on numbers as propositions, for statements. *)
Definition num_le (x y : num) : Prop := le x y = true.

Declare Scope num_scope.
Delimit Scope num_scope with num.
Bind Scope num_scope with num.
Infix "+" := add : num_scope.
Infix "-" := sub : num_scope.
Infix "*" := mul : num_scope.
Infix "/" := div : num_scope.
Notation "- x" := (neg x) : num_scope.
Infix "<=" := num_le : num_scope.
Notation "x <= y <= z" := (num_le x y /\ num_le y z) : num_scope.

(** Decisions on reals that the model makes are settled by [lra]. *)
Ltac decide_reals :=
  repeat match goal with
    | |- context [Rlt_dec ?a ?b] => destruct (Rlt_dec a b); try lra
    | |- context [Req_dec_T ?a ?b] => destruct (Req_dec_T a b); try lra
    | H : context [Rlt_dec ?a ?b] |- _ => destruct (Rlt_dec a b); try lra
    | H : context [Req_dec_T ?a ?b] |- _ => destruct (Req_dec_T a b); try lra
    end.

Ltac num_simpl :=
  cbn [neg add sub mul div lt gt le strict_eq Math_exp Math_log Math_max
       Math_min Math_round negb] in *;
  unfold Rltb, Reqb, signed_inf in *.

Lemma Rltb_true (x y : R) : x < y -> Rltb x y = true.
Proof. intros H; unfold Rltb; decide_reals; reflexivity. Qed.

Lemma Rltb_false (x y : R) : y <= x -> Rltb x y = false.
Proof. intros H; unfold Rltb; decide_reals; reflexivity. Qed.

Lemma Reqb_true (x y : R) : x = y -> Reqb x y = true.
Proof. intros H; unfold Reqb; decide_reals; reflexivity. Qed.

Lemma Reqb_false (x y : R) : x <> y -> Reqb x y = false.
Proof. intros H; unfold Reqb; destruct (Req_dec_T x y); [contradiction|reflexivity]. Qed.

Lemma div_Fin (a b : R) : b <> 0 -> div (Fin a) (Fin b) = Fin (a / b).
Proof. intros H; cbn; rewrite Reqb_false by assumption; reflexivity. Qed.

Lemma le_Fin (a b : R) : num_le (Fin a) (Fin b) <-> a <= b.
Proof.
  unfold num_le; cbn; unfold Rltb; split; intros H.
  - destruct (Rlt_dec b a); [discriminate|lra].
  - destruct (Rlt_dec b a); [lra|reflexivity].
Qed.

Lemma le_NaN_l (y : num) : ~ num_le NaN y.
Proof. unfold num_le; cbn; discriminate. Qed.

Lemma le_NaN_r (x : num) : ~ num_le x NaN.
Proof. unfold num_le; destruct x; cbn; discriminate. Qed.

(** *** Rounding *)

Lemma Int_part_spec (r : R) : IZR (Int_part r) <= r < IZR (Int_part r) + 1.
Proof.
  unfold Int_part; rewrite minus_IZR.
  destruct (archimed r) as [H1 H2]; lra.
Qed.

Lemma Int_part_unique (r : R) (z : Z) : IZR z <= r < IZR z + 1 -> Int_part r = z.
Proof.
  intros [H1 H2]; destruct (Int_part_spec r) as [H3 H4].
  assert (Ha : (Int_part r < z + 1)%Z).
  { apply lt_IZR; rewrite plus_IZR; lra. }
  assert (Hb : (z < Int_part r + 1)%Z).
  { apply lt_IZR; rewrite plus_IZR; lra. }
  lia.
Qed.

Lemma Int_part_mono (x y : R) : x <= y -> (Int_part x <= Int_part y)%Z.
Proof.
  intros H; destruct (Int_part_spec x) as [H1 H2], (Int_part_spec y) as [H3 H4].
  assert (Ha : (Int_part x < Int_part y + 1)%Z).
  { apply lt_IZR; rewrite plus_IZR; lra. }
  lia.
Qed.

Lemma Int_part_IZR (z : Z) : Int_part (IZR z) = z.
Proof. apply Int_part_unique; lra. Qed.

Definition round (r : R) : R := IZR (Int_part (r + / 2)).

Lemma Math_round_Fin (r : R) : Math_round (Fin r) = Fin (round r).
Proof. reflexivity. Qed.

Lemma round_mono (x y : R) : x <= y -> round x <= round y.
Proof. intros H; apply IZR_le, Int_part_mono; lra. Qed.

Lemma round_IZR (z : Z) : round (IZR z) = IZR z.
Proof.
  unfold round; f_equal; apply Int_part_unique; lra.
Qed.

Lemma round_near (r : R) (z : Z) : IZR z - / 2 <= r < IZR z + / 2 -> round r = IZR z.
Proof. intros H; unfold round; f_equal; apply Int_part_unique; lra. Qed.

(** *** Bounds on the exponential *)

Lemma exp_mult_nat (n : nat) (y : R) : exp (INR n * y) = exp y ^ n.
Proof.
  induction n as [|n IH].
  - simpl; rewrite Rmult_0_l; apply exp_0.
  - rewrite S_INR, Rmult_plus_distr_r, Rmult_1_l, exp_plus, IH; simpl; ring.
Qed.

Lemma exp_lower (n : nat) (y : R) : 0 <= 1 + y -> (1 + y) ^ n <= exp (INR n * y).
Proof.
  intros H; rewrite exp_mult_nat; apply pow_incr; split; [assumption|].
  apply exp_ineq1_le.
Qed.

Lemma exp_upper (n : nat) (y : R) : y < 1 -> exp (INR n * y) <= / (1 - y) ^ n.
Proof.
  intros H; rewrite exp_mult_nat.
  assert (H1 : 1 - y <= exp (- y)) by (pose proof (exp_ineq1_le (- y)); lra).
  assert (H2 : exp y <= / (1 - y)).
  { rewrite <- (Ropp_involutive y) at 1; rewrite exp_Ropp.
    apply Rinv_le_contravar; lra. }
  rewrite <- pow_inv; apply pow_incr; split; [left; apply exp_pos|assumption].
Qed.

(** ** Strings and POWER payloads *)

(** A JavaScript string is a sequence of UTF-16 code units. *)
Definition jsstring : Type := list N.

Fixpoint jsstring_eqb (s t : jsstring) : bool :=
  match s, t with
  | [], [] => true
  | a :: s', b :: t' => N.eqb a b && jsstring_eqb s' t'
  | _, _ => false
  end.

(** The JavaScript string of an ASCII literal. *)
Definition str (s : string) : jsstring :=
  List.map N_of_ascii (list_ascii_of_string s).

(** A parameter object of a POWER response, such as
    [properties.parameter.T2M]: time key to value.  A value is a finite
    number or JSON [null]; a literal beyond the range of binary64, which
    [res.json()] reads as an infinity, is outside the model. *)
Definition series : Type := list (jsstring * option R).

Fixpoint assoc {A : Type} (k : jsstring) (l : list (jsstring * A)) : option A :=
  match l with
  | [] => None
  | (k', v) :: l' => if jsstring_eqb k k' then Some v else assoc k l'
  end.

(** [obj?.[k]] with [null] and [undefined] identified, as every reader of
    these values tests them with [!= null] or [??]; for a key that is no
    name of [Object.prototype]. *)
Definition lookup (s : option series) (k : jsstring) : option R :=
  match s with
  | None => None
  | Some l => match assoc k l with Some v => v | None => None end
  end.

(** [properties.parameter] of a POWER response: a missing parameter is
    [None]. *)
Record PowerParameter : Type := mkPowerParameter {
  T2M : option series;
  T2M_MAX : option series;
  T2M_MIN : option series;
  RH2M : option series;
  WS10M : option series;
  ALLSKY_SFC_UV_INDEX : option series;
  PRECTOTCORR : option series
}.

(** [pd?.properties?.parameter || {}] of a response without parameters. *)
Definition no_parameter : PowerParameter :=
  mkPowerParameter None None None None None None None.

(** ** Sanitizer (line 21) *)

(** [isInvalidPowerValue]: [v === -999 || v === -5994]; [undefined] and
    [null] are equal to neither. *)
Definition isInvalidPowerValue (v : option R) : bool :=
  match v with
  | None => false
  | Some r => Reqb r (-999) || Reqb r (-5994)
  end.

(** [isInvalidPowerValue(raw) ? null : (raw ?? null)], the sanitizing
    expression of [getForecast] and [fetchWeather]. *)
Definition sanitize (raw : option R) : option R :=
  if isInvalidPowerValue raw then None else raw.

(** ** Local comfort-risk computation (lines 441-527) *)

Record RiskIndex : Type := mkRiskIndex {
  center : num;
  low : num;
  high : num
}.

Record RiskIndices : Type := mkRiskIndices {
  heat : RiskIndex;
  cold : RiskIndex;
  wind : RiskIndex;
  wet : RiskIndex
}.

Definition clamp (v min max : num) : num := Math_max min (Math_min max v).

(** [l.reduce((a,b)=>a+b,0)/l.length] *)
Definition average (l : list R) : R := fold_left Rplus l 0 / INR (List.length l).

(** [times.map(k => obj[k]).filter(v => v != null)] *)
Definition present_values (times : list jsstring) (s : option series) : list R :=
  flat_map (fun k => match lookup s k with Some v => [v] | None => [] end) times.

(** [Object.keys(phParam?.T2M || {})]: insertion order, which is the order
    of [Object.keys] when the keys are all array indices in increasing
    order or none of them is one. *)
Definition keys (s : option series) : list jsstring :=
  match s with None => [] | Some l => map fst l end.

Definition tmean_of (tmax tmin : option R) (temps : list R) : option R :=
  match temps with
  | _ :: _ => Some (average temps)
  | [] => match tmax, tmin with
          | Some a, Some b => Some ((a + b) / 2)
          | _, _ => None
          end
  end.

Definition windMs_of (winds : list R) : R :=
  match winds with
  | _ :: _ => average winds
  | [] => 3.5
  end.

(** Humidex approximation: dew point by the Magnus formula. *)
Definition humidex (tmean rh : option R) : option num :=
  match tmean, rh with
  | Some t, Some h =>
      let a := Fin 17.27 in
      let b := Fin 237.7 in
      let alpha := (((a * Fin t) / (b + Fin t)) + Math_log (Fin h / Fin 100))%num in
      let dew := ((b * alpha) / (a - alpha))%num in
      let e := (Fin 6.11 * Math_exp (Fin 5417.7530 *
                 ((Fin 1 / Fin 273.16) - (Fin 1 / (Fin 273.15 + dew)))))%num in
      Some (Fin t + (Fin 5 / Fin 9) * (e - Fin 10))%num
  | _, _ => None
  end.

(** The right-hand side of the wind-chill formula. *)
Definition chill_formula (tmean windKmh : num) : num :=
  (Fin 13.12 + Fin 0.6215 * tmean - Fin 11.37 * Math_pow windKmh (Fin 0.16)
   + Fin 0.3965 * tmean * Math_pow windKmh (Fin 0.16))%num.

Definition windChill (tmean : option R) (windMs : R) : option num :=
  match tmean with
  | None => None
  | Some t =>
      let windKmh := (Fin windMs * Fin 3.6)%num in
      if gt (Fin t) (Fin 10) || le windKmh (Fin 4.8) then Some (Fin t)
      else Some (chill_formula (Fin t) windKmh)
  end.

Definition heatCenter (hx : option num) : num :=
  match hx with
  | None => Fin 0
  | Some x => (Fin 100 / (Fin 1 + Math_exp (- (x - Fin 35) / Fin 2.5)))%num
  end.

Definition coldMetric (wc : option num) : num :=
  match wc with
  | None => Fin 20
  | Some x => (Fin 5 - x)%num
  end.

Definition coldCenter (wc : option num) : num :=
  (Fin 100 / (Fin 1 + Math_exp (- (coldMetric wc - Fin 0) / Fin 2.5)))%num.

Definition windCenter (windMs : R) : num :=
  (Fin 100 / (Fin 1 + Math_exp (- (Fin windMs - Fin 10) / Fin 1.5)))%num.

Definition wetCenter (prec : option R) : num :=
  match prec with
  | None => Fin 0
  | Some p => (Fin 100 / (Fin 1 + Math_exp (- (Fin p - Fin 2) / Fin 2)))%num
  end.

(** [{ center: Math.round(c), low: Math.round(clamp(c - 10, 0, 100)),
      high: Math.round(clamp(c + 10, 0, 100)) }] *)
Definition banded (c : num) : RiskIndex :=
  mkRiskIndex (Math_round c)
              (Math_round (clamp (c - Fin 10) (Fin 0) (Fin 100)))
              (Math_round (clamp (c + Fin 10) (Fin 0) (Fin 100))).

(** The computation of [computeLocalRiskFallback] once both POWER
    responses are there: [p] is the daily parameter object, [phParam] the
    hourly one. *)
Definition localRisk (p phParam : PowerParameter) (startKey : jsstring) : RiskIndices :=
  let tmax := lookup (T2M_MAX p) startKey in
  let tmin := lookup (T2M_MIN p) startKey in
  let rh := lookup (RH2M p) startKey in
  let prec := lookup (PRECTOTCORR p) startKey in
  let times := keys (T2M phParam) in
  let temps := present_values times (T2M phParam) in
  let winds := present_values times (WS10M phParam) in
  let tmean := tmean_of tmax tmin temps in
  let windMs := windMs_of winds in
  mkRiskIndices (banded (heatCenter (humidex tmean rh)))
                (banded (coldCenter (windChill tmean windMs)))
                (banded (windCenter windMs))
                (banded (wetCenter prec)).

(** ** Properties of the risk computation *)

(** The logistic curve of the specification. *)
Definition logistic_spec (threshold scale m : R) : R :=
  100 / (1 + exp (- (m - threshold) / scale)).

Lemma logistic_Fin (m t s : R) :
  s <> 0 ->
  (Fin 100 / (Fin 1 + Math_exp (- (Fin m - Fin t) / Fin s)))%num
  = Fin (logistic_spec t s m).
Proof.
  intros Hs; unfold logistic_spec, sub; cbn [neg add].
  rewrite div_Fin by assumption; cbn [Math_exp add].
  rewrite div_Fin by (pose proof (exp_pos (- (m + - t) / s)); lra).
  replace (m + - t) with (m - t) by lra; reflexivity.
Qed.

Lemma logistic_spec_range (t s m : R) : 0 < logistic_spec t s m < 100.
Proof.
  unfold logistic_spec; set (e := exp _).
  assert (He : 0 < e) by apply exp_pos.
  split.
  - apply Rdiv_lt_0_compat; lra.
  - apply Rmult_lt_reg_r with (1 + e); [lra|].
    unfold Rdiv; rewrite Rmult_assoc, Rinv_l by lra; lra.
Qed.

Lemma logistic_spec_lower (t s m lo : R) :
  0 < lo -> exp (- (m - t) / s) <= 100 / lo - 1 -> lo <= logistic_spec t s m.
Proof.
  intros Hlo H; unfold logistic_spec; set (e := exp _) in *.
  assert (He : 0 < e) by apply exp_pos.
  apply Rmult_le_reg_r with (1 + e); [lra|].
  unfold Rdiv at 1; rewrite Rmult_assoc, Rinv_l by lra.
  apply Rmult_le_reg_r with (/ lo); [apply Rinv_0_lt_compat; lra|].
  replace (lo * (1 + e) * / lo) with (1 + e) by (field; lra).
  unfold Rdiv in H; lra.
Qed.

Lemma logistic_spec_upper (t s m hi : R) :
  0 < hi -> 100 / hi - 1 < exp (- (m - t) / s) -> logistic_spec t s m < hi.
Proof.
  intros Hhi H; unfold logistic_spec; set (e := exp _) in *.
  assert (He : 0 < e) by apply exp_pos.
  apply Rmult_lt_reg_r with (1 + e); [lra|].
  unfold Rdiv at 1; rewrite Rmult_assoc, Rinv_l by lra.
  apply Rmult_lt_reg_r with (/ hi); [apply Rinv_0_lt_compat; lra|].
  replace (hi * (1 + e) * / hi) with (1 + e) by (field; lra).
  unfold Rdiv in H; lra.
Qed.

(** The four fields of a risk index are numbers between 0 and 100, in
    order. *)
Definition well_banded (i : RiskIndex) : Prop :=
  (Fin 0 <= low i)%num /\ (low i <= center i)%num /\
  (center i <= high i)%num /\ (high i <= Fin 100)%num.

Lemma clamp_Fin (r : R) :
  clamp (Fin r) (Fin 0) (Fin 100) = Fin (Rmax 0 (Rmin 100 r)).
Proof.
  unfold clamp, Math_max, Math_min, lt, Rltb, Rmax, Rmin.
  destruct (Rlt_dec r 100), (Rle_dec 100 r); try lra;
  cbn; destruct (Rlt_dec 0 _), (Rle_dec 0 _); try lra; f_equal; lra.
Qed.

Lemma banded_Fin (r : R) :
  banded (Fin r) =
  mkRiskIndex (Fin (round r)) (Fin (round (Rmax 0 (Rmin 100 (r - 10)))))
              (Fin (round (Rmax 0 (Rmin 100 (r + 10))))).
Proof.
  unfold banded, sub; cbn [neg add].
  rewrite !clamp_Fin, !Math_round_Fin; reflexivity.
Qed.

Lemma banded_well_banded (r : R) : 0 <= r <= 100 -> well_banded (banded (Fin r)).
Proof.
  intros [H0 H100]; rewrite banded_Fin; unfold well_banded; cbn [low center high].
  rewrite !le_Fin.
  assert (Hl : 0 <= Rmax 0 (Rmin 100 (r - 10)) <= r).
  { unfold Rmax, Rmin; destruct (Rle_dec 100 (r - 10)), (Rle_dec 0 _); lra. }
  assert (Hh : r <= Rmax 0 (Rmin 100 (r + 10)) <= 100).
  { unfold Rmax, Rmin; destruct (Rle_dec 100 (r + 10)), (Rle_dec 0 _); lra. }
  pose proof (round_IZR 0) as R0; pose proof (round_IZR 100) as R100.
  pose proof (round_mono 0 _ (proj1 Hl)); pose proof (round_mono _ _ (proj2 Hl)).
  pose proof (round_mono _ _ (proj1 Hh)); pose proof (round_mono _ 100 (proj2 Hh)).
  lra.
Qed.

Lemma banded_NaN : banded NaN = mkRiskIndex NaN NaN NaN.
Proof. reflexivity. Qed.

(** The logistic map sends every number but [NaN] into [[0,100]]. *)
Lemma logistic_num_range (x t s : num) :
  x <> NaN -> (exists a, t = Fin a) -> (exists b, s = Fin b /\ 0 < b) ->
  exists r, (Fin 100 / (Fin 1 + Math_exp (- (x - t) / s)))%num = Fin r /\ 0 <= r <= 100.
Proof.
  intros Hx [a ->] [b [-> Hb]].
  destruct x as [| | |m]; [contradiction| | |].
  - exists 100; cbn; rewrite (Rltb_false b 0) by lra; cbn.
    rewrite Reqb_false by lra; split; [f_equal; field|lra].
  - exists 0; cbn; rewrite (Rltb_false b 0) by lra; cbn; split; [reflexivity|lra].
  - rewrite logistic_Fin by lra; eexists; split; [reflexivity|].
    pose proof (logistic_spec_range a b m); lra.
Qed.

Lemma exp_8_lower : 256 <= exp 8.
Proof.
  replace 8 with (INR 8 * 1) by (rewrite INR_IZR_INZ; simpl; lra).
  eapply Rle_trans; [|apply exp_lower; lra]; lra.
Qed.

Lemma exp_10_3_bounds : 27572 / 1000 < exp (10 / 3) < 39.
Proof.
  replace (10 / 3) with (INR 512 * (10 / 1536))
    by (rewrite INR_IZR_INZ; simpl; lra).
  split.
  - eapply Rlt_le_trans; [|apply exp_lower; lra]; lra.
  - eapply Rle_lt_trans; [apply exp_upper; lra|].
    apply Rmult_lt_reg_r with ((1 - 10 / 1536) ^ 512); [apply pow_lt; lra|].
    rewrite Rinv_l by (apply pow_nonzero; lra); lra.
Qed.

Lemma exp_13_3_bounds : 66 < exp (13 / 3) < 199.
Proof.
  replace (13 / 3) with (INR 128 * (13 / 384))
    by (rewrite INR_IZR_INZ; simpl; lra).
  split.
  - eapply Rlt_le_trans; [|apply exp_lower; lra]; lra.
  - eapply Rle_lt_trans; [apply exp_upper; lra|].
    apply Rmult_lt_reg_r with ((1 - 13 / 384) ^ 128); [apply pow_lt; lra|].
    rewrite Rinv_l by (apply pow_nonzero; lra); lra.
Qed.

(** The centers the fixed scenarios produce. *)

Lemma windCenter_15 : exists r, windCenter 15 = Fin r /\ 965 / 10 <= r < 975 / 10.
Proof.
  unfold windCenter; rewrite logistic_Fin by lra; eexists; split; [reflexivity|].
  destruct exp_10_3_bounds as [Hl Hu].
  assert (He : exp (- (15 - 10) / 1.5) = / exp (10 / 3)).
  { rewrite <- exp_Ropp; f_equal; lra. }
  assert (Hp : 0 < exp (10 / 3)) by apply exp_pos.
  split.
  - apply logistic_spec_lower; [lra|]; rewrite He.
    apply Rmult_le_reg_r with (exp (10 / 3)); [assumption|].
    rewrite Rinv_l by lra; lra.
  - apply logistic_spec_upper; [lra|]; rewrite He.
    apply Rmult_lt_reg_r with (exp (10 / 3)); [assumption|].
    rewrite Rinv_l by lra; lra.
Qed.

Lemma windCenter_5 : exists r, windCenter 5 = Fin r /\ 25 / 10 <= r < 35 / 10.
Proof.
  unfold windCenter; rewrite logistic_Fin by lra; eexists; split; [reflexivity|].
  destruct exp_10_3_bounds as [Hl Hu].
  assert (He : exp (- (5 - 10) / 1.5) = exp (10 / 3)) by (f_equal; lra).
  split.
  - apply logistic_spec_lower; [lra|]; rewrite He; lra.
  - apply logistic_spec_upper; [lra|]; rewrite He; lra.
Qed.

Lemma windCenter_default : exists r, windCenter 3.5 = Fin r /\ 5 / 10 <= r < 15 / 10.
Proof.
  unfold windCenter; rewrite logistic_Fin by lra; eexists; split; [reflexivity|].
  destruct exp_13_3_bounds as [Hl Hu].
  assert (He : exp (- (3.5 - 10) / 1.5) = exp (13 / 3)) by (f_equal; lra).
  split.
  - apply logistic_spec_lower; [lra|]; rewrite He; lra.
  - apply logistic_spec_upper; [lra|]; rewrite He; lra.
Qed.

Lemma coldCenter_default : exists r, coldCenter None = Fin r /\ 995 / 10 <= r < 100.
Proof.
  unfold coldCenter, coldMetric; rewrite logistic_Fin by lra.
  eexists; split; [reflexivity|].
  pose proof exp_8_lower as H8.
  assert (He : exp (- (20 - 0) / 2.5) = / exp 8).
  { rewrite <- exp_Ropp; f_equal; lra. }
  assert (Hp : 0 < exp 8) by apply exp_pos.
  split.
  - apply logistic_spec_lower; [lra|]; rewrite He.
    apply Rmult_le_reg_r with (exp 8); [assumption|].
    rewrite Rinv_l by lra; lra.
  - apply logistic_spec_range.
Qed.

Lemma banded_value (r : R) (c l h : Z) :
  IZR c - / 2 <= r < IZR c + / 2 ->
  IZR l - / 2 <= Rmax 0 (Rmin 100 (r - 10)) < IZR l + / 2 ->
  IZR h - / 2 <= Rmax 0 (Rmin 100 (r + 10)) < IZR h + / 2 ->
  banded (Fin r) = mkRiskIndex (Fin (IZR c)) (Fin (IZR l)) (Fin (IZR h)).
Proof.
  intros Hc Hl Hh; rewrite banded_Fin.
  rewrite (round_near _ _ Hc), (round_near _ _ Hl), (round_near _ _ Hh); reflexivity.
Qed.

Lemma Rclamp_cases (r : R) :
  (r <= 0 /\ Rmax 0 (Rmin 100 r) = 0) \/
  (0 <= r <= 100 /\ Rmax 0 (Rmin 100 r) = r) \/
  (100 <= r /\ Rmax 0 (Rmin 100 r) = 100).
Proof.
  unfold Rmax, Rmin; destruct (Rle_dec 100 r), (Rle_dec 0 _); lra.
Qed.

Ltac solve_band :=
  match goal with
  | |- context [Rmax 0 (Rmin 100 ?r)] =>
      destruct (Rclamp_cases r) as [[? ->]|[[? ->]|[? ->]]]; lra
  | _ => lra
  end.

Lemma banded_zero : banded (Fin 0) = mkRiskIndex (Fin 0) (Fin 0) (Fin 10).
Proof. apply (banded_value 0 0 0 10); solve_band. Qed.

Lemma jsstring_eqb_refl (s : jsstring) : jsstring_eqb s s = true.
Proof. induction s as [|a s IH]; cbn; [|rewrite N.eqb_refl, IH]; reflexivity. Qed.

Lemma jsstring_eqb_eq (s t : jsstring) : jsstring_eqb s t = true <-> s = t.
Proof.
  split; [|intros ->; apply jsstring_eqb_refl].
  revert t; induction s as [|a s IH]; intros [|b t]; cbn; try discriminate; auto.
  intros H; apply andb_prop in H; destruct H as [H1 H2].
  apply N.eqb_eq in H1; apply IH in H2; congruence.
Qed.

Lemma lookup_head (k : jsstring) (v : option R) (l : series) :
  lookup (Some ((k, v) :: l)) k = v.
Proof. unfold lookup; cbn; rewrite jsstring_eqb_refl; destruct v; reflexivity. Qed.

Lemma add_NaN_r (x : num) : add x NaN = NaN.
Proof. destruct x; reflexivity. Qed.

Lemma mul_NaN_r (x : num) : mul x NaN = NaN.
Proof. destruct x; reflexivity. Qed.

Lemma div_NaN_r (x : num) : div x NaN = NaN.
Proof. destruct x; reflexivity. Qed.

(** A negative relative humidity, such as the POWER fill value, makes the
    humidex [NaN]: [Math.log] of a negative number is [NaN]. *)
Lemma humidex_negative_rh (t h : R) : h < 0 -> humidex (Some t) (Some h) = Some NaN.
Proof.
  intros Hh; unfold humidex; cbv zeta.
  rewrite (div_Fin h 100) by lra.
  assert (Hlog : Math_log (Fin (h / 100)) = NaN).
  { cbn; rewrite Rltb_false, Reqb_false by lra; reflexivity. }
  rewrite Hlog; unfold sub.
  repeat first [ rewrite add_NaN_r | rewrite mul_NaN_r | rewrite div_NaN_r
               | progress cbn [add mul div neg Math_exp] ].
  reflexivity.
Qed.

Lemma heatCenter_NaN : heatCenter (Some NaN) = NaN.
Proof. reflexivity. Qed.

(** In exact arithmetic the apparent-cold metric of a present temperature
    is a finite number. *)
Lemma windChill_finite (t w : R) : exists r, windChill (Some t) w = Some (Fin r).
Proof.
  unfold windChill; cbv zeta; cbn [mul].
  destruct (gt (Fin t) (Fin 10) || le (Fin (w * 3.6)) (Fin 4.8)) eqn:E.
  - eexists; reflexivity.
  - apply orb_false_elim in E; destruct E as [_ E].
    assert (Hw : 4.8 < w * 3.6).
    { cbn in E; unfold Rltb in E; destruct (Rlt_dec 4.8 (w * 3.6)); [assumption|discriminate]. }
    unfold chill_formula, Math_pow.
    rewrite (Reqb_false 0.16 0), (Rltb_true 0 (w * 3.6)) by lra.
    eexists; reflexivity.
Qed.

Lemma heat_well_banded (hx : option num) :
  hx <> Some NaN -> well_banded (banded (heatCenter hx)).
Proof.
  intros H; destruct hx as [x|]; cbn [heatCenter].
  - destruct (logistic_num_range x (Fin 35) (Fin 2.5)) as [r [-> Hr]].
    + congruence.
    + eexists; reflexivity.
    + eexists; split; [reflexivity|lra].
    + apply banded_well_banded; assumption.
  - apply banded_well_banded; lra.
Qed.

Lemma cold_well_banded (tmean : option R) (w : R) :
  well_banded (banded (coldCenter (windChill tmean w))).
Proof.
  unfold coldCenter.
  assert (H : exists m, coldMetric (windChill tmean w) = Fin m).
  { destruct tmean as [t|]; [|eexists; reflexivity].
    destruct (windChill_finite t w) as [r ->]; eexists; reflexivity. }
  destruct H as [m ->]; rewrite logistic_Fin by lra.
  apply banded_well_banded; pose proof (logistic_spec_range 0 2.5 m); lra.
Qed.

Lemma wind_well_banded (w : R) : well_banded (banded (windCenter w)).
Proof.
  unfold windCenter; rewrite logistic_Fin by lra.
  apply banded_well_banded; pose proof (logistic_spec_range 10 1.5 w); lra.
Qed.

Lemma wet_well_banded (prec : option R) : well_banded (banded (wetCenter prec)).
Proof.
  destruct prec as [p|]; cbn [wetCenter].
  - rewrite logistic_Fin by lra.
    apply banded_well_banded; pose proof (logistic_spec_range 2 2 p); lra.
  - apply banded_well_banded; lra.
Qed.

(** In exact arithmetic cold, wind and wet satisfy the invariant; heat
    does as soon as the humidex is a number. *)
Lemma localRisk_well_banded (p ph : PowerParameter) (k : jsstring) :
  let r := localRisk p ph k in
  well_banded (cold r) /\ well_banded (wind r) /\ well_banded (wet r) /\
  (humidex (tmean_of (lookup (T2M_MAX p) k) (lookup (T2M_MIN p) k)
                     (present_values (keys (T2M ph)) (T2M ph)))
           (lookup (RH2M p) k) <> Some NaN -> well_banded (heat r)).
Proof.
  cbv zeta; unfold localRisk; cbn [heat cold wind wet].
  split; [|split; [|split]].
  - apply cold_well_banded.
  - apply wind_well_banded.
  - apply wet_well_banded.
  - apply heat_well_banded.
Qed.

(** *** The scoring formula *)

(** The four center expressions on a present metric, before rounding. *)
Lemma heatCenter_Fin (m : R) : heatCenter (Some (Fin m)) = Fin (logistic_spec 35 2.5 m).
Proof. unfold heatCenter; apply logistic_Fin; lra. Qed.

Lemma coldCenter_Fin (wc : R) :
  coldCenter (Some (Fin wc)) = Fin (logistic_spec 0 2.5 (5 - wc)).
Proof.
  unfold coldCenter; change (coldMetric (Some (Fin wc))) with (Fin (5 + - wc)).
  rewrite logistic_Fin by lra; reflexivity.
Qed.

Lemma windCenter_Fin (w : R) : windCenter w = Fin (logistic_spec 10 1.5 w).
Proof. unfold windCenter; apply logistic_Fin; lra. Qed.

Lemma wetCenter_Fin (p : R) : wetCenter (Some p) = Fin (logistic_spec 2 2 p).
Proof. unfold wetCenter; apply logistic_Fin; lra. Qed.

Lemma exp_10_3_upper : exp (10 / 3) < 32.
Proof.
  replace (10 / 3) with (INR 512 * (10 / 1536))
    by (rewrite INR_IZR_INZ; simpl; lra).
  eapply Rle_lt_trans; [apply exp_upper; lra|].
  apply Rmult_lt_reg_r with ((1 - 10 / 1536) ^ 512); [apply pow_lt; lra|].
  rewrite Rinv_l by (apply pow_nonzero; lra); lra.
Qed.

(** The curve of the wind at 15 m/s lies between 96.5 and 97. *)
Lemma logistic_wind_15 : 965 / 10 <= logistic_spec 10 1.5 15 < 97.
Proof.
  pose proof exp_10_3_upper as Hu; destruct exp_10_3_bounds as [Hl _].
  assert (He : exp (- (15 - 10) / 1.5) = / exp (10 / 3)).
  { rewrite <- exp_Ropp; f_equal; lra. }
  assert (Hp : 0 < exp (10 / 3)) by apply exp_pos.
  split.
  - apply logistic_spec_lower; [lra|]; rewrite He.
    apply Rmult_le_reg_r with (exp (10 / 3)); [assumption|].
    rewrite Rinv_l by lra; lra.
  - apply logistic_spec_upper; [lra|]; rewrite He.
    apply Rmult_lt_reg_r with (exp (10 / 3)); [assumption|].
    rewrite Rinv_l by lra; lra.
Qed.

(** *** The apparent-cold metric *)

(** C7. For a present temperature [t] and wind speed [w] (in m/s, so
    [w * 3.6] km/h) the wind-chill formula is applied when [t <= 10] and
    the wind exceeds 4.8 km/h, and in every other case the metric is the
    raw temperature. *)
Theorem windChill_cases (t w : R) :
  (t <= 10 /\ 4.8 < w * 3.6 ->
   windChill (Some t) w =
   Some (Fin (13.12 + 0.6215 * t - 11.37 * Rpower (w * 3.6) 0.16
              + 0.3965 * t * Rpower (w * 3.6) 0.16))) /\
  (~ (t <= 10 /\ 4.8 < w * 3.6) -> windChill (Some t) w = Some (Fin t)).
Proof.
  unfold windChill; cbv zeta; cbn [mul gt le lt negb]; split.
  - intros [Ht Hw].
    rewrite (Rltb_false 10 t), (Rltb_true 4.8 (w * 3.6)) by lra; cbn [orb negb].
    unfold chill_formula, Math_pow.
    rewrite (Reqb_false 0.16 0), (Rltb_true 0 (w * 3.6)) by lra.
    unfold sub; cbn [mul add neg]; f_equal; f_equal; ring.
  - intros H; destruct (Rlt_dec 10 t) as [Ht|Ht].
    + rewrite (Rltb_true 10 t) by assumption; reflexivity.
    + rewrite (Rltb_false 10 t) by lra.
      rewrite (Rltb_false 4.8 (w * 3.6)) by lra; reflexivity.
Qed.

Lemma windChill_cases_witness :
  windChill (Some 5) 3 =
    Some (Fin (13.12 + 0.6215 * 5 - 11.37 * Rpower (3 * 3.6) 0.16
               + 0.3965 * 5 * Rpower (3 * 3.6) 0.16)) /\
  windChill (Some 20) 3 = Some (Fin 20).
Proof.
  split.
  - apply (proj1 (windChill_cases 5 3)); lra.
  - apply (proj2 (windChill_cases 20 3)); lra.
Defined.

(** *** The wind scenario *)

(** [x] is a number within [tol] of [v]. *)
Definition approx (tol : R) (x : num) (v : R) : Prop :=
  exists r, x = Fin r /\ Rabs (r - v) <= tol.

(** C9, as stated, fails: the center for 15 m/s is not within 2 points of
    94 and the center for 5 m/s is not within 6 points of 10. *)
Lemma wind_scenario_counterexample :
  ~ approx 2 (windCenter 15) 94 /\ ~ approx 6 (windCenter 5) 10.
Proof.
  split; intros [r [Hr Habs]].
  - destruct windCenter_15 as [c [Hc Hb]]; rewrite Hc in Hr; injection Hr as <-.
    unfold Rabs in Habs; destruct (Rcase_abs (c - 94)); lra.
  - destruct windCenter_5 as [c [Hc Hb]]; rewrite Hc in Hr; injection Hr as <-.
    unfold Rabs in Habs; destruct (Rcase_abs (c - 10)); lra.
Qed.

(** C9, amended. A wind speed of 15 m/s maps to a center that rounds to 97
    and 5 m/s to a center that rounds to 3; the reported wind indices are
    97 in [87, 100] and 3 in [0, 13]. *)
Theorem wind_scenario :
  approx (/ 2) (windCenter 15) 97 /\ approx (/ 2) (windCenter 5) 3 /\
  banded (windCenter 15) = mkRiskIndex (Fin 97) (Fin 87) (Fin 100) /\
  banded (windCenter 5) = mkRiskIndex (Fin 3) (Fin 0) (Fin 13).
Proof.
  destruct windCenter_15 as [a [Ha Hba]], windCenter_5 as [b [Hb Hbb]].
  rewrite Ha, Hb; split; [|split; [|split]].
  - exists a; split; [reflexivity|].
    unfold Rabs; destruct (Rcase_abs (a - 97)); lra.
  - exists b; split; [reflexivity|].
    unfold Rabs; destruct (Rcase_abs (b - 3)); lra.
  - apply (banded_value a 97 87 100); solve_band.
  - apply (banded_value b 3 0 13); solve_band.
Qed.

(** *** Absent inputs *)

Definition sample_day : jsstring := str "20251017".

(** C2, as stated, fails: with every input absent the cold center is 100
    and the wind center is 1, not 0. *)
Lemma absent_inputs_counterexample :
  center (cold (localRisk no_parameter no_parameter sample_day)) <> Fin 0 /\
  center (wind (localRisk no_parameter no_parameter sample_day)) <> Fin 0.
Proof.
  unfold localRisk; cbn [cold wind center T2M WS10M no_parameter keys
    present_values flat_map windMs_of tmean_of lookup T2M_MAX T2M_MIN windChill].
  destruct coldCenter_default as [c [Hc Hcb]], windCenter_default as [w [Hw Hwb]].
  rewrite Hc, Hw; cbn [banded center]; rewrite !Math_round_Fin.
  rewrite (round_near c 100), (round_near w 1) by lra.
  split; intros H; injection H; lra.
Qed.

(** C2, amended. When the humidity or every temperature is absent the
    heat index is center 0 in [0, 10] whatever the other inputs are, and
    so is the wet index when the precipitation is absent.  When no wind
    sample is present the wind index is computed from the default speed of
    3.5 m/s: center 1 in [0, 11]. *)
Theorem absent_inputs (p ph : PowerParameter) (k : jsstring) :
  let r := localRisk p ph k in
  let zero := mkRiskIndex (Fin 0) (Fin 0) (Fin 10) in
  (lookup (RH2M p) k = None -> heat r = zero) /\
  (tmean_of (lookup (T2M_MAX p) k) (lookup (T2M_MIN p) k)
            (present_values (keys (T2M ph)) (T2M ph)) = None -> heat r = zero) /\
  (lookup (PRECTOTCORR p) k = None -> wet r = zero) /\
  (present_values (keys (T2M ph)) (WS10M ph) = [] ->
   wind r = banded (windCenter 3.5) /\
   wind r = mkRiskIndex (Fin 1) (Fin 0) (Fin 11)).
Proof.
  cbv zeta; unfold localRisk; cbn [heat wet wind].
  split; [|split; [|split]].
  - intros ->.
    replace (humidex _ None) with (@None num) by (destruct (tmean_of _ _ _); reflexivity).
    apply banded_zero.
  - intros ->; apply banded_zero.
  - intros ->; apply banded_zero.
  - intros ->; cbn [windMs_of]; split; [reflexivity|].
    destruct windCenter_default as [w [-> Hw]].
    apply (banded_value w 1 0 11); solve_band.
Qed.

Lemma absent_inputs_witness :
  let r := localRisk no_parameter no_parameter sample_day in
  heat r = mkRiskIndex (Fin 0) (Fin 0) (Fin 10) /\
  wet r = mkRiskIndex (Fin 0) (Fin 0) (Fin 10) /\
  wind r = mkRiskIndex (Fin 1) (Fin 0) (Fin 11).
Proof.
  destruct (absent_inputs no_parameter no_parameter sample_day) as [Hh [_ [Hw Hv]]].
  split; [apply Hh; reflexivity|].
  split; [apply Hw; reflexivity|].
  apply Hv; reflexivity.
Defined.

(** *** The invariant of a risk index *)

(** A daily response whose relative humidity is the POWER fill value. *)
Definition fill_value_day : PowerParameter :=
  mkPowerParameter None None None (Some [(sample_day, Some (-999))]) None None None.

(** An hourly response with one temperature of 20 degrees. *)
Definition one_hour : PowerParameter :=
  mkPowerParameter (Some [(str "2025101700", Some 20)]) None None None None None None.

(** C1 at a response the code does not sanitize: with a relative humidity
    of -999 the three fields of the heat index are [NaN], and the
    invariant does not hold. *)
Theorem heat_index_on_fill_value :
  heat (localRisk fill_value_day one_hour sample_day) = mkRiskIndex NaN NaN NaN /\
  ~ well_banded (heat (localRisk fill_value_day one_hour sample_day)).
Proof.
  assert (H : heat (localRisk fill_value_day one_hour sample_day)
              = mkRiskIndex NaN NaN NaN).
  { unfold localRisk; cbn [heat fill_value_day one_hour T2M T2M_MAX T2M_MIN RH2M
      keys List.map fst present_values flat_map app].
    rewrite !lookup_head; cbn [lookup tmean_of app].
    rewrite humidex_negative_rh by lra; reflexivity. }
  split; [assumption|].
  rewrite H; intros [H0 _]; cbn [low] in H0; exact (le_NaN_r _ H0).
Qed.

(** ** The synthetic POWER generator and the POWER fetches (lines 75-176) *)

(** [Math.random] is modelled by the sequence of the values it will
    return; a call takes the first and leaves the rest. *)
Definition Rand : Type := nat -> R.

Definition Math_random (g : Rand) : R * Rand := (g 0%nat, fun n => g (S n)).

(** [String(hour).padStart(2, '0')] for [hour < 100]. *)
Definition pad2 (hour : nat) : jsstring :=
  [(48 + N.of_nat (hour / 10))%N; (48 + N.of_nat (hour mod 10))%N].

(** [obj[key] = v] on a parameter object whose keys are set in
    increasing order; [key] is no name of [Object.prototype]. *)
Definition set_key (s : option series) (key : jsstring) (v : R) : option series :=
  match s with
  | None => Some [(key, Some v)]
  | Some l => Some (l ++ [(key, Some v)])
  end.

(** One turn of the loop of [generateMockPowerData]. *)
Definition mock_hour (startDate : jsstring) (lat lon : R)
    (st : PowerParameter * Rand) (hour : nat) : PowerParameter * Rand :=
  let (mockData, g) := st in
  let timeKey := startDate ++ pad2 hour in
  let t2m := 20 + sin (INR hour * 0.3) * 8 + lat * 0.1 in
  let rh2m := 50 + cos (INR hour * 0.2) * 20 + lon * 0.1 in
  let (r1, g1) := Math_random g in
  let ws10m := 3 + r1 * 5 in
  let uv := Rmax 0 (sin (INR hour * 0.2) * 6) in
  let (r2, g2) := Math_random g1 in
  let prec := r2 * 2 in
  (mkPowerParameter (set_key (T2M mockData) timeKey t2m)
                    (T2M_MAX mockData) (T2M_MIN mockData)
                    (set_key (RH2M mockData) timeKey rh2m)
                    (set_key (WS10M mockData) timeKey ws10m)
                    (set_key (ALLSKY_SFC_UV_INDEX mockData) timeKey uv)
                    (set_key (PRECTOTCORR mockData) timeKey prec),
   g2).

Definition generateMockPowerData (startDate : jsstring) (lat lon : R) (g : Rand)
    : PowerParameter * Rand :=
  let mockData :=
    mkPowerParameter (Some []) None None (Some []) (Some []) (Some []) (Some []) in
  fold_left (mock_hour startDate lat lon) (seq 0 24) (mockData, g).

Definition generateMockPowerDailyData (startDate : jsstring) (lat lon : R) (g : Rand)
    : PowerParameter * Rand :=
  let tmax := 25 + sin (lat * 0.1) * 5 in
  let tmin := 15 + cos (lon * 0.1) * 3 in
  let rh := 60 + sin (lat * lon * 0.01) * 20 in
  let (r1, g1) := Math_random g in
  let uv := 4 + r1 * 4 in
  let (r2, g2) := Math_random g1 in
  let prec := r2 * 10 in
  (mkPowerParameter None (Some [(startDate, Some tmax)]) (Some [(startDate, Some tmin)])
                    (Some [(startDate, Some rh)]) None
                    (Some [(startDate, Some uv)]) (Some [(startDate, Some prec)]),
   g2).

(** What [await fetch(url)] followed by [res.json()] can do: the request
    rejects, or it resolves with a status that is [ok] or not and a body
    that parses ([Some]) or not ([None]). *)
Inductive FetchResult : Type :=
| Rejects
| Resolves (ok : bool) (json : option PowerParameter).

Definition fetchPowerHourly (lat lon : R) (startDate endDate : jsstring)
    (net : FetchResult) (g : Rand) : PowerParameter * Rand :=
  match net with
  | Resolves true (Some data) => (data, g)
  | _ => generateMockPowerData startDate lat lon g
  end.

Definition fetchPowerDaily (lat lon : R) (startDate endDate : jsstring)
    (net : FetchResult) (g : Rand) : PowerParameter * Rand :=
  match net with
  | Resolves true (Some data) => (data, g)
  | _ => generateMockPowerDailyData startDate lat lon g
  end.

(** [s.replaceAll("-", "")] *)
Definition remove_dashes (s : jsstring) : jsstring :=
  filter (fun c => negb (N.eqb c 45)) s.

(** The common fields of [fetchOpenWeather] and [fetchWeather]. *)
Record Weather : Type := mkWeather {
  temperature_c : option R;
  humidity_pct : option R;
  wind_ms : option R
}.

(** [fetchWeather] (lines 24-45): [ow] is the outcome of
    [fetchOpenWeather], [None] when it throws; the POWER hourly fetch runs
    only then. *)
Definition fetchWeather (lat lon : R) (dateISO : jsstring) (ow : option Weather)
    (net : FetchResult) (g : Rand) : Weather * Rand :=
  match ow with
  | Some w => (w, g)
  | None =>
      let startKey := remove_dashes dateISO in
      let (param, g') := fetchPowerHourly lat lon startKey startKey net g in
      match keys (T2M param) with
      | [] => (mkWeather None None None, g')
      | key :: _ =>
          (mkWeather (sanitize (lookup (T2M param) key))
                     (sanitize (lookup (RH2M param) key))
                     (sanitize (lookup (WS10M param) key)), g')
      end
  end.

(** [computeLocalRiskFallback]: the daily fetch, then the hourly one, then
    the indices. *)
Definition computeLocalRiskFallback (lat lon : R) (isoDate : jsstring)
    (netDaily netHourly : FetchResult) (g : Rand) : RiskIndices * Rand :=
  let startKey := remove_dashes isoDate in
  let (p, g1) := fetchPowerDaily lat lon startKey startKey netDaily g in
  let (phParam, g2) := fetchPowerHourly lat lon startKey startKey netHourly g1 in
  (localRisk p phParam startKey, g2).

(** *** The centers that the computation returns *)

(** An hourly response with one hour: 20 degrees and a wind of 15 m/s. *)
Definition windy_hour : PowerParameter :=
  mkPowerParameter (Some [(str "2025101700", Some 20)]) None None None
                   (Some [(str "2025101700", Some 15)]) None None.

(** A daily response with 4 mm of precipitation. *)
Definition rainy_day : PowerParameter :=
  mkPowerParameter None None None None None None (Some [(str "20251017", Some 4)]).

Lemma average_single (x : R) : average [x] = x.
Proof. unfold average; cbn [fold_left List.length INR]; field. Qed.

(** C6, as stated, fails: with one wind sample of 15 m/s the metric is 15
    and the curve gives a value below 97, while the center of the wind
    index that the computation returns is 97. *)
Lemma centers_counterexample :
  windMs_of (present_values (keys (T2M windy_hour)) (WS10M windy_hour)) = 15 /\
  center (wind (localRisk no_parameter windy_hour (str "20251017"))) = Fin 97 /\
  center (wind (localRisk no_parameter windy_hour (str "20251017")))
  <> Fin (logistic_spec 10 1.5 15).
Proof.
  assert (Hw : windMs_of (present_values (keys (T2M windy_hour)) (WS10M windy_hour)) = 15).
  { cbn [windy_hour T2M WS10M keys List.map fst present_values flat_map].
    rewrite lookup_head; cbn [app windMs_of]; apply average_single. }
  assert (Hc : center (wind (localRisk no_parameter windy_hour (str "20251017"))) = Fin 97).
  { unfold localRisk; cbn [wind]; rewrite Hw, windCenter_Fin.
    cbn [banded center]; rewrite Math_round_Fin.
    rewrite (round_near _ 97); [reflexivity|pose proof logistic_wind_15; lra]. }
  split; [exact Hw|]; split; [exact Hc|].
  rewrite Hc; intros H; injection H as H; pose proof logistic_wind_15; lra.
Qed.

(** C6, amended. The center of each index that [computeLocalRiskFallback]
    returns is [Math.round] of the curve 100 / (1 + e^(-(m - threshold)/scale))
    at the present metric [m]: heat on the humidex with (35, 2.5), cold on
    [5 - wind chill] with (0, 2.5), wind on the mean wind speed in m/s with
    (10, 1.5), wet on the daily precipitation in mm with (2, 2). *)
Theorem centers_round_logistic (lat lon : R) (isoDate : jsstring)
    (netDaily netHourly : FetchResult) (g : Rand) :
  let k := remove_dashes isoDate in
  let daily := fetchPowerDaily lat lon k k netDaily g in
  let p := fst daily in
  let ph := fst (fetchPowerHourly lat lon k k netHourly (snd daily)) in
  let tmean := tmean_of (lookup (T2M_MAX p) k) (lookup (T2M_MIN p) k)
                        (present_values (keys (T2M ph)) (T2M ph)) in
  let windMs := windMs_of (present_values (keys (T2M ph)) (WS10M ph)) in
  let r := fst (computeLocalRiskFallback lat lon isoDate netDaily netHourly g) in
  r = localRisk p ph k /\
  (forall m, humidex tmean (lookup (RH2M p) k) = Some (Fin m) ->
             center (heat r) = Math_round (Fin (logistic_spec 35 2.5 m))) /\
  (forall wc, windChill tmean windMs = Some (Fin wc) ->
              center (cold r) = Math_round (Fin (logistic_spec 0 2.5 (5 - wc)))) /\
  center (wind r) = Math_round (Fin (logistic_spec 10 1.5 windMs)) /\
  (forall pr, lookup (PRECTOTCORR p) k = Some pr ->
              center (wet r) = Math_round (Fin (logistic_spec 2 2 pr))).
Proof.
  cbv zeta; unfold computeLocalRiskFallback.
  destruct (fetchPowerDaily lat lon (remove_dashes isoDate) (remove_dashes isoDate)
              netDaily g) as [p g1]; cbn [fst snd].
  destruct (fetchPowerHourly lat lon (remove_dashes isoDate) (remove_dashes isoDate)
              netHourly g1) as [ph g2]; cbn [fst snd].
  split; [reflexivity|]; unfold localRisk; cbn [heat cold wind wet].
  split; [|split; [|split]].
  - intros m ->; rewrite heatCenter_Fin; reflexivity.
  - intros wc ->; rewrite coldCenter_Fin; reflexivity.
  - rewrite windCenter_Fin; reflexivity.
  - intros pr ->; rewrite wetCenter_Fin; reflexivity.
Qed.

Lemma centers_round_logistic_witness :
  center (wet (fst (computeLocalRiskFallback (-33.8688) 151.2093 (str "2025-10-17")
                      (Resolves true (Some rainy_day)) (Resolves true (Some windy_hour))
                      (fun _ => / 2))))
  = Math_round (Fin (logistic_spec 2 2 4)).
Proof.
  apply (centers_round_logistic (-33.8688) 151.2093 (str "2025-10-17")
           (Resolves true (Some rainy_day)) (Resolves true (Some windy_hour))
           (fun _ => / 2)).
  reflexivity.
Defined.

(** ** Sanitized hourly series and merge of [getForecast] (lines 295-355) *)

Module PowerHour.
Record t : Type := mk {
  dt : R;
  tempC : option R;
  humidityPct : option R;
  windMs : option R;
  precipMm : option R;
  uvIndex : option R
}.
End PowerHour.

(** The entry that [times.map] builds for [key]; [dt] is the time the key
    denotes. *)
Definition hourEntry (phParam : PowerParameter) (dt : R) (key : jsstring) : PowerHour.t :=
  let windMsRaw := lookup (WS10M phParam) key in
  let windMs := sanitize windMsRaw in
  let tRaw := lookup (T2M phParam) key in
  let rhRaw := lookup (RH2M phParam) key in
  let pRaw := lookup (PRECTOTCORR phParam) key in
  let uvRaw := lookup (ALLSKY_SFC_UV_INDEX phParam) key in
  PowerHour.mk dt (sanitize tRaw) (sanitize rhRaw)
               (match windMs with Some w => Some w | None => None end)
               (sanitize pRaw) (sanitize uvRaw).

Definition Rleb (x y : R) : bool := if Rle_dec x y then true else false.

Fixpoint findIndex {A : Type} (f : A -> bool) (l : list A) : option nat :=
  match l with
  | [] => None
  | a :: l' => if f a then Some 0%nat else option_map S (findIndex f l')
  end.

(** [nearestIdx], with [None] for [-1]; [phSeries] is the sorted array. *)
Definition nearestIdx (phSeries : list PowerHour.t) (target : R) : option nat :=
  match findIndex (fun h => Rleb target (PowerHour.dt h)) phSeries with
  | Some i => Some i
  | None => match phSeries with
            | [] => None
            | _ :: _ => Some (List.length phSeries - 1)%nat
            end
  end.

Definition next12 (phSeries : list PowerHour.t) (target : R) : list PowerHour.t :=
  match nearestIdx phSeries target with
  | Some i => firstn 12 (skipn i phSeries)
  | None => []
  end.

(** [openOneCall.current] of the OneCall response. *)
Record OneCallCurrent : Type := mkOneCallCurrent {
  temp : option R;
  humidity : option R;
  wind_speed : option R;
  uvi : option R
}.

(** The OneCall response: [current], and [daily[0].uvi]. *)
Record OneCall : Type := mkOneCall {
  current : option OneCallCurrent;
  daily0_uvi : option R
}.

Module Snapshot.
Record t : Type := mk {
  tempC : option R;
  humidityPct : option R;
  windMs : option R;
  uvIndex : option R
}.
End Snapshot.

(** [x?.f] on an optional record. *)
Definition field {A : Type} (x : option A) (f : A -> option R) : option R :=
  match x with Some a => f a | None => None end.

(** Lines 330-355.  [oe] is the result of [fetchWeather], [None] when it
    threw; its objects have no other field than the three of [Weather], so
    the alternatives [oe?.temp_c], [oe?.temperature] and [oe?.humidity]
    are [undefined].  [first] is [next12[0]]. *)
Definition mergeCurrent (openOneCall : option OneCall) (oe : option Weather)
    (first : option PowerHour.t) (pdParam : PowerParameter) (startKey : jsstring)
    : Snapshot.t :=
  let uvDailyRaw := lookup (ALLSKY_SFC_UV_INDEX pdParam) startKey in
  let uvDaily := sanitize uvDailyRaw in
  let owCurrent := match openOneCall with Some oc => current oc | None => None end in
  let oeTemp := field oe temperature_c in
  let oeHum := field oe humidity_pct in
  let oeWindMs := field oe wind_ms in
  let oeUv := match field owCurrent uvi with
              | Some u => Some u
              | None => field openOneCall daily0_uvi
              end in
  let tempC :=
    match field owCurrent temp with
    | Some x => Some (round x)
    | None => match oeTemp with
              | Some x => Some (round x)
              | None => match field first PowerHour.tempC with
                        | Some x => Some (round x)
                        | None => None
                        end
              end
    end in
  let humidityPct :=
    match field owCurrent humidity with
    | Some x => Some (round x)
    | None => match oeHum with
              | Some x => Some (round x)
              | None => match field first PowerHour.humidityPct with
                        | Some x => Some (round x)
                        | None => None
                        end
              end
    end in
  let windMs :=
    match field owCurrent wind_speed with
    | Some x => Some x
    | None => match oeWindMs with
              | Some x => Some x
              | None => match field first PowerHour.windMs with
                        | Some x => Some x
                        | None => None
                        end
              end
    end in
  let uvIndex :=
    match field owCurrent uvi with
    | Some x => Some (round x)
    | None => match oeUv with
              | Some x => Some (round x)
              | None => match uvDaily with
                        | Some x => Some (round x)
                        | None => match field first PowerHour.uvIndex with
                                  | Some x => Some (round x)
                                  | None => None
                                  end
                        end
              end
    end in
  Snapshot.mk tempC humidityPct windMs uvIndex.

(** ** Properties of the sanitizer *)

Lemma sanitize_sentinel (v : R) : v = -999 \/ v = -5994 -> sanitize (Some v) = None.
Proof.
  intros [-> | ->]; unfold sanitize, isInvalidPowerValue.
  - rewrite Reqb_true by reflexivity; reflexivity.
  - rewrite (Reqb_true (-5994) (-5994)) by reflexivity; rewrite orb_true_r; reflexivity.
Qed.

Lemma sanitize_other (v : R) : v <> -999 -> v <> -5994 -> sanitize (Some v) = Some v.
Proof.
  intros H1 H2; unfold sanitize, isInvalidPowerValue.
  rewrite !Reqb_false by assumption; reflexivity.
Qed.

(** C5. The sanitized value of a raw number [v] is absent exactly when [v]
    is -999 or -5994, and is [v] itself otherwise. *)
Theorem sanitize_spec (v : R) :
  (sanitize (Some v) = None <-> v = -999 \/ v = -5994) /\
  (sanitize (Some v) <> None -> sanitize (Some v) = Some v).
Proof.
  destruct (Req_dec_T v (-999)) as [E1|N1]; [|destruct (Req_dec_T v (-5994)) as [E2|N2]].
  - rewrite sanitize_sentinel by auto; split; [tauto|congruence].
  - rewrite sanitize_sentinel by auto; split; [tauto|congruence].
  - rewrite sanitize_other by assumption; split; [|reflexivity].
    split; [discriminate|tauto].
Qed.

Lemma sanitize_spec_witness : sanitize (Some 21.5) = Some 21.5.
Proof.
  apply (proj2 (sanitize_spec 21.5)).
  rewrite sanitize_other by lra; discriminate.
Defined.

(** No field of a sanitized hourly entry holds a sentinel. *)
Lemma sanitize_never_sentinel (raw : option R) (x : R) :
  sanitize raw = Some x -> x <> -999 /\ x <> -5994.
Proof.
  destruct raw as [v|]; [|discriminate].
  intros E.
  destruct (Req_dec_T v (-999)) as [E1|N1]; [rewrite sanitize_sentinel in E by auto; discriminate|].
  destruct (Req_dec_T v (-5994)) as [E2|N2]; [rewrite sanitize_sentinel in E by auto; discriminate|].
  rewrite sanitize_other in E by assumption; injection E as <-; auto.
Qed.

(** ** Properties of the merge *)

(** The first of two optional values that is present. *)
Definition prefer (first second : option R) : option R :=
  match first with Some x => Some x | None => second end.

(** C4, as stated, fails: a live temperature of 30.5 and a reanalysis
    temperature of 20 merge to 31, which is not the live value. *)
Lemma merge_counterexample :
  Snapshot.tempC
    (mergeCurrent (Some (mkOneCall (Some (mkOneCallCurrent (Some 30.5) None None None)) None))
                  None (Some (PowerHour.mk 0 (Some 20) None None None None))
                  no_parameter sample_day)
  <> Some 30.5.
Proof.
  cbn; rewrite (round_near 30.5 31) by lra; intros H; injection H; lra.
Qed.

(** C4, amended. Each merged field takes the live value when one is
    present, OneCall before the simple current-weather reading, and the
    reanalysis value only when no live value is; temperature, humidity and
    UV are rounded to the nearest integer, wind is not.  A live
    temperature of 30 and a reanalysis temperature of 20 merge to 30. *)
Theorem merge_precedence (openOneCall : option OneCall) (oe : option Weather)
    (first : option PowerHour.t) (pdParam : PowerParameter) (startKey : jsstring) :
  let m := mergeCurrent openOneCall oe first pdParam startKey in
  let owCurrent := match openOneCall with Some oc => current oc | None => None end in
  Snapshot.tempC m =
    option_map round (prefer (prefer (field owCurrent temp) (field oe temperature_c))
                             (field first PowerHour.tempC)) /\
  Snapshot.humidityPct m =
    option_map round (prefer (prefer (field owCurrent humidity) (field oe humidity_pct))
                             (field first PowerHour.humidityPct)) /\
  Snapshot.windMs m =
    prefer (prefer (field owCurrent wind_speed) (field oe wind_ms))
           (field first PowerHour.windMs) /\
  Snapshot.uvIndex m =
    option_map round
      (prefer (prefer (field owCurrent uvi) (field openOneCall daily0_uvi))
              (prefer (sanitize (lookup (ALLSKY_SFC_UV_INDEX pdParam) startKey))
                      (field first PowerHour.uvIndex))) /\
  Snapshot.tempC
    (mergeCurrent (Some (mkOneCall (Some (mkOneCallCurrent (Some 30) None None None)) None))
                  None (Some (PowerHour.mk 0 (Some 20) None None None None))
                  pdParam startKey) = Some 30.
Proof.
  cbv zeta; unfold mergeCurrent; cbn [Snapshot.tempC Snapshot.humidityPct
    Snapshot.windMs Snapshot.uvIndex].
  split; [|split; [|split; [|split]]].
  - destruct (field _ temp), (field oe temperature_c), (field first PowerHour.tempC);
      reflexivity.
  - destruct (field _ humidity), (field oe humidity_pct),
      (field first PowerHour.humidityPct); reflexivity.
  - destruct (field _ wind_speed), (field oe wind_ms), (field first PowerHour.windMs);
      reflexivity.
  - destruct (field _ uvi), (field openOneCall daily0_uvi), (sanitize _),
      (field first PowerHour.uvIndex); reflexivity.
  - cbn; rewrite (round_IZR 30); reflexivity.
Qed.

(** ** Properties of the synthetic generator *)

Definition failed (net : FetchResult) : bool :=
  match net with
  | Resolves true (Some _) => false
  | _ => true
  end.

Section MockLoop.
Variables (startDate : jsstring) (lat lon : R).

Definition t2m_at (hour : nat) : R := 20 + sin (INR hour * 0.3) * 8 + lat * 0.1.
Definition rh2m_at (hour : nat) : R := 50 + cos (INR hour * 0.2) * 20 + lon * 0.1.
Definition uv_at (hour : nat) : R := Rmax 0 (sin (INR hour * 0.2) * 6).

Definition fill (value : nat -> R) (hours : list nat) (s : option series) : option series :=
  fold_left (fun s hour => set_key s (startDate ++ pad2 hour) (value hour)) hours s.

Lemma mock_loop_fixed (hours : list nat) (st : PowerParameter * Rand) :
  let out := fst (fold_left (mock_hour startDate lat lon) hours st) in
  T2M out = fill t2m_at hours (T2M (fst st)) /\
  RH2M out = fill rh2m_at hours (RH2M (fst st)) /\
  ALLSKY_SFC_UV_INDEX out = fill uv_at hours (ALLSKY_SFC_UV_INDEX (fst st)) /\
  T2M_MAX out = T2M_MAX (fst st) /\ T2M_MIN out = T2M_MIN (fst st).
Proof.
  revert st; induction hours as [|h hours IH]; intros [md g]; cbn [fold_left].
  - cbn; auto.
  - specialize (IH (mock_hour startDate lat lon (md, g) h)); cbv zeta in IH |- *.
    destruct IH as (H1 & H2 & H3 & H4 & H5).
    rewrite H1, H2, H3, H4, H5; unfold fill; cbn; auto.
Qed.

Lemma mock_hour_WS10M (md : PowerParameter) (g : Rand) (h : nat) :
  WS10M (fst (mock_hour startDate lat lon (md, g) h))
  = set_key (WS10M md) (startDate ++ pad2 h) (3 + g 0%nat * 5).
Proof. reflexivity. Qed.

Lemma fold_left_cons {A B : Type} (f : A -> B -> A) (b : B) (l : list B) (a : A) :
  fold_left f (b :: l) a = fold_left f l (f a b).
Proof. reflexivity. Qed.

Lemma generateMockPowerData_unfold (g : Rand) :
  generateMockPowerData startDate lat lon g =
  fold_left (mock_hour startDate lat lon) (seq 1 23)
    (mock_hour startDate lat lon (mkPowerParameter (Some []) None None (Some []) (Some []) (Some []) (Some []), g)
          0%nat).
Proof. unfold generateMockPowerData; rewrite <- fold_left_cons; reflexivity. Qed.

Lemma mock_loop_head (hours : list nat) (st : PowerParameter * Rand) (x : jsstring * option R)
    (l : series) :
  WS10M (fst st) = Some (x :: l) ->
  exists l', WS10M (fst (fold_left (mock_hour startDate lat lon) hours st)) = Some (x :: l').
Proof.
  revert st l; induction hours as [|h hours IH]; intros [md g] l H.
  - exists l; assumption.
  - rewrite fold_left_cons.
    apply (IH _ (l ++ [(startDate ++ pad2 h, Some (3 + g 0%nat * 5))])).
    rewrite mock_hour_WS10M; cbn [fst] in H; rewrite H; reflexivity.
Qed.

Lemma mock_first_wind (g : Rand) :
  exists l, WS10M (fst (generateMockPowerData startDate lat lon g))
            = Some ((startDate ++ pad2 0, Some (3 + g 0%nat * 5)) :: l).
Proof.
  rewrite generateMockPowerData_unfold.
  apply (mock_loop_head _ _ _ []).
  rewrite mock_hour_WS10M; reflexivity.
Qed.

End MockLoop.

(** C8, as stated, fails: two runs of the generator on the same date and
    coordinates give different wind series when [Math.random] returns
    different values. *)
Lemma mock_counterexample :
  fst (generateMockPowerData sample_day (-33.8688) 151.2093 (fun _ => 0))
  <> fst (generateMockPowerData sample_day (-33.8688) 151.2093 (fun _ => / 2)).
Proof.
  intros H; apply (f_equal WS10M) in H.
  destruct (mock_first_wind sample_day (-33.8688) 151.2093 (fun _ => 0)) as [l1 H1].
  destruct (mock_first_wind sample_day (-33.8688) 151.2093 (fun _ => / 2)) as [l2 H2].
  rewrite H1, H2 in H; injection H; intros; lra.
Qed.

Lemma fetchPowerHourly_failed (lat lon : R) (startDate endDate : jsstring)
    (net : FetchResult) (g : Rand) :
  failed net = true ->
  fetchPowerHourly lat lon startDate endDate net g
    = generateMockPowerData startDate lat lon g.
Proof. destruct net as [|[|] [d|]]; try reflexivity; discriminate. Qed.

Lemma fetchPowerHourly_ok (lat lon : R) (startDate endDate : jsstring)
    (data : PowerParameter) (g : Rand) :
  fetchPowerHourly lat lon startDate endDate (Resolves true (Some data)) g = (data, g).
Proof. reflexivity. Qed.

Definition mock_start : PowerParameter :=
  mkPowerParameter (Some []) None None (Some []) (Some []) (Some []) (Some []).

Lemma fill_keys (d : jsstring) (value : nat -> R) (hours : list nat) (l : series) :
  keys (fill d value hours (Some l))
  = List.map fst l ++ List.map (fun h => d ++ pad2 h) hours.
Proof.
  revert l; induction hours as [|h hours IH]; intros l.
  - cbn; rewrite app_nil_r; reflexivity.
  - unfold fill in *; rewrite fold_left_cons; cbn [set_key]; rewrite IH.
    rewrite map_app, <- app_assoc; reflexivity.
Qed.

Lemma mock_fixed_series (d : jsstring) (lat lon : R) (g : Rand) :
  let out := fst (generateMockPowerData d lat lon g) in
  T2M out = fill d (t2m_at lat) (seq 0 24) (Some []) /\
  RH2M out = fill d (rh2m_at lon) (seq 0 24) (Some []) /\
  ALLSKY_SFC_UV_INDEX out = fill d uv_at (seq 0 24) (Some []).
Proof.
  destruct (mock_loop_fixed d lat lon (seq 0 24) (mock_start, g)) as (H1 & H2 & H3 & _).
  cbv zeta; unfold generateMockPowerData; fold mock_start.
  rewrite H1, H2, H3; auto.
Qed.

Lemma mock_hours (d : jsstring) (lat lon : R) (g : Rand) :
  keys (T2M (fst (generateMockPowerData d lat lon g)))
  = List.map (fun h => d ++ pad2 h) (seq 0 24).
Proof.
  destruct (mock_fixed_series d lat lon g) as (H1 & _); cbv zeta in H1.
  rewrite H1, fill_keys; reflexivity.
Qed.

(** C8, amended. When the POWER fetch fails (the request rejects, the
    status is not OK or the body does not parse) [fetchPowerHourly] still
    returns: its result is the output of the generator, with 24 hourly
    temperatures.  The temperature, humidity and UV series of that output
    are functions of the date key and the coordinates alone (wind and
    precipitation are drawn from [Math.random]), and the output carries no
    mark: a successful fetch of the same data returns the same value. *)
Theorem synthetic_fallback (lat lon : R) (startDate endDate : jsstring)
    (net : FetchResult) (g : Rand) :
  failed net = true ->
  fetchPowerHourly lat lon startDate endDate net g
    = generateMockPowerData startDate lat lon g /\
  List.length (keys (T2M (fst (fetchPowerHourly lat lon startDate endDate net g)))) = 24%nat /\
  (forall g' : Rand,
     let a := fst (generateMockPowerData startDate lat lon g) in
     let b := fst (generateMockPowerData startDate lat lon g') in
     T2M a = T2M b /\ RH2M a = RH2M b /\
     ALLSKY_SFC_UV_INDEX a = ALLSKY_SFC_UV_INDEX b) /\
  (forall g' : Rand,
     fst (fetchPowerHourly lat lon startDate endDate
            (Resolves true (Some (fst (generateMockPowerData startDate lat lon g)))) g')
     = fst (fetchPowerHourly lat lon startDate endDate net g)).
Proof.
  intros Hf; pose proof (fetchPowerHourly_failed lat lon startDate endDate net g Hf) as E.
  split; [exact E|]; split; [|split].
  - rewrite E, mock_hours, length_map, length_seq; reflexivity.
  - intros g'; cbv zeta.
    destruct (mock_fixed_series startDate lat lon g) as (H1 & H2 & H3).
    destruct (mock_fixed_series startDate lat lon g') as (H1' & H2' & H3').
    cbv zeta in *; rewrite H1, H2, H3, H1', H2', H3'; auto.
  - intros g'; rewrite E; generalize (generateMockPowerData startDate lat lon g).
    intros out; rewrite fetchPowerHourly_ok; reflexivity.
Qed.

Lemma synthetic_fallback_witness :
  fetchPowerHourly (-33.8688) 151.2093 sample_day sample_day Rejects (fun _ => / 2)
  = generateMockPowerData sample_day (-33.8688) 151.2093 (fun _ => / 2).
Proof.
  apply (synthetic_fallback (-33.8688) 151.2093 sample_day sample_day Rejects (fun _ => / 2)).
  reflexivity.
Defined.

(** ** Base64: [btoa] and [atob] *)

Open Scope N_scope.

(** The character of a 6-bit value. *)
Definition b64_char (n : N) : N :=
  if n <? 26 then 65 + n
  else if n <? 52 then 97 + (n - 26)
  else if n <? 62 then 48 + (n - 52)
  else if n =? 62 then 43 else 47.

(** The 6-bit value of a character of the alphabet. *)
Definition b64_value (c : N) : option N :=
  if (65 <=? c) && (c <=? 90) then Some (c - 65)
  else if (97 <=? c) && (c <=? 122) then Some (c - 97 + 26)
  else if (48 <=? c) && (c <=? 57) then Some (c - 48 + 52)
  else if c =? 43 then Some 62
  else if c =? 47 then Some 63
  else None.

(** The characters of a byte sequence, without padding. *)
Fixpoint b64_encode (bytes : list N) : list N :=
  match bytes with
  | [] => []
  | [a] => [b64_char (a / 4); b64_char ((a mod 4) * 16)]
  | [a; b] => [b64_char (a / 4); b64_char ((a mod 4) * 16 + b / 16);
               b64_char ((b mod 16) * 4)]
  | a :: b :: c :: rest =>
      b64_char (a / 4) :: b64_char ((a mod 4) * 16 + b / 16)
      :: b64_char ((b mod 16) * 4 + c / 64) :: b64_char (c mod 64)
      :: b64_encode rest
  end.

Definition b64_padding (bytes : list N) : list N :=
  match (List.length bytes mod 3)%nat with
  | 1%nat => [61; 61]
  | 2%nat => [61]
  | _ => []
  end.

(** [btoa]: [None] is the [InvalidCharacterError] thrown when a code unit
    is above 255. *)
Definition btoa (s : jsstring) : option jsstring :=
  if forallb (fun c => c <=? 255) s
  then Some (b64_encode s ++ b64_padding s)
  else None.

(** The bytes of a sequence of 6-bit values; the bits left over in the
    last group are discarded. *)
Fixpoint b64_decode (vals : list N) : list N :=
  match vals with
  | a :: b :: c :: d :: rest =>
      (a * 4 + b / 16) :: ((b mod 16) * 16 + c / 4) :: ((c mod 4) * 64 + d)
      :: b64_decode rest
  | [a; b; c] => [a * 4 + b / 16; (b mod 16) * 16 + c / 4]
  | [a; b] => [a * 4 + b / 16]
  | _ => []
  end.

Definition is_ascii_whitespace (c : N) : bool :=
  (c =? 9) || (c =? 10) || (c =? 12) || (c =? 13) || (c =? 32).

(** Removes one [=] at the end, if there is one. *)
Definition strip_equals (s : list N) : list N :=
  match rev s with
  | c :: r => if c =? 61 then rev r else s
  | [] => s
  end.

Fixpoint b64_values (s : list N) : option (list N) :=
  match s with
  | [] => Some []
  | c :: s' =>
      match b64_value c, b64_values s' with
      | Some v, Some vs => Some (v :: vs)
      | _, _ => None
      end
  end.

(** [atob], the forgiving-base64 decoding: [None] is the exception. *)
Definition atob (data : jsstring) : option jsstring :=
  let s := filter (fun c => negb (is_ascii_whitespace c)) data in
  let s := if (List.length s mod 4 =? 0)%nat then strip_equals (strip_equals s) else s in
  if (List.length s mod 4 =? 1)%nat then None
  else option_map b64_decode (b64_values s).

Lemma b64_value_char (n : N) : n < 64 -> b64_value (b64_char n) = Some n.
Proof.
  intros H; unfold b64_char, b64_value.
  repeat match goal with
         | |- context [?a <? ?b] => destruct (N.ltb_spec a b)
         | |- context [?a <=? ?b] => destruct (N.leb_spec a b)
         | |- context [?a =? ?b] => destruct (N.eqb_spec a b)
         end; cbn [andb]; try (f_equal; lia); lia.
Qed.

Lemma b64_char_plain (n : N) :
  n < 64 -> is_ascii_whitespace (b64_char n) = false /\ b64_char n <> 61.
Proof.
  intros H; unfold b64_char, is_ascii_whitespace.
  repeat match goal with
         | |- context [?a <? ?b] => destruct (N.ltb_spec a b)
         | |- context [?a =? ?b] => destruct (N.eqb_spec a b)
         end; cbn [orb]; split; try reflexivity; lia.
Qed.

Lemma list_ind3 {A : Type} (P : list A -> Prop) :
  P [] -> (forall a, P [a]) -> (forall a b, P [a; b]) ->
  (forall a b c l, P l -> P (a :: b :: c :: l)) ->
  forall l, P l.
Proof.
  intros H0 H1 H2 H3.
  assert (H : forall l, P l /\ (forall a, P (a :: l)) /\ (forall a b, P (a :: b :: l))).
  { induction l as [|x l (IH0 & IH1 & IH2)]; [auto|].
    split; [apply IH1|]; split; [intros a; apply IH2|].
    intros a b; apply H3; assumption. }
  intros l; apply H.
Qed.

Definition is_byte (c : N) : Prop := c <= 255.

Lemma b64_group (a b c : N) :
  a <= 255 -> b <= 255 -> c <= 255 ->
  let v0 := a / 4 in
  let v1 := (a mod 4) * 16 + b / 16 in
  let v2 := (b mod 16) * 4 + c / 64 in
  let v3 := c mod 64 in
  v0 < 64 /\ v1 < 64 /\ v2 < 64 /\ v3 < 64 /\
  v0 * 4 + v1 / 16 = a /\ (v1 mod 16) * 16 + v2 / 4 = b /\ (v2 mod 4) * 64 + v3 = c.
Proof.
  intros Ha Hb Hc; cbv zeta.
  pose proof (N.div_mod a 4 ltac:(lia)); pose proof (N.mod_lt a 4 ltac:(lia)).
  pose proof (N.div_mod b 16 ltac:(lia)); pose proof (N.mod_lt b 16 ltac:(lia)).
  pose proof (N.div_mod c 64 ltac:(lia)); pose proof (N.mod_lt c 64 ltac:(lia)).
  set (a1 := a / 4) in *; set (a0 := a mod 4) in *.
  set (b1 := b / 16) in *; set (b0 := b mod 16) in *.
  set (c1 := c / 64) in *; set (c0 := c mod 64) in *.
  assert (E1 : (a0 * 16 + b1) / 16 = a0).
  { symmetry; apply (N.div_unique _ 16 a0 b1); lia. }
  assert (E2 : (a0 * 16 + b1) mod 16 = b1).
  { symmetry; apply (N.mod_unique _ 16 a0 b1); lia. }
  assert (E3 : (b0 * 4 + c1) / 4 = b0).
  { symmetry; apply (N.div_unique _ 4 b0 c1); lia. }
  assert (E4 : (b0 * 4 + c1) mod 4 = c1).
  { symmetry; apply (N.mod_unique _ 4 b0 c1); lia. }
  rewrite E1, E2, E3, E4; repeat split; lia.
Qed.

Lemma b64_encode_values (bytes : list N) :
  Forall is_byte bytes ->
  exists vals, b64_values (b64_encode bytes) = Some vals /\ b64_decode vals = bytes.
Proof.
  unfold is_byte; induction bytes as [|a|a b|a b c l IH] using list_ind3; intros HF.
  - exists []; split; reflexivity.
  - inversion_clear HF as [|? ? Ha _].
    destruct (b64_group a 0 0 Ha) as (H0 & H1 & _ & _ & E0 & _); try lia.
    cbv zeta in *; change (0 / 16) with 0 in *; rewrite N.add_0_r in *.
    eexists; cbn [b64_encode b64_values]; rewrite !b64_value_char by assumption.
    split; [reflexivity|]; cbn [b64_decode]; rewrite E0; reflexivity.
  - inversion_clear HF as [|? ? Ha HF']; inversion_clear HF' as [|? ? Hb _].
    destruct (b64_group a b 0 Ha Hb) as (H0 & H1 & H2 & _ & E0 & E1 & _); try lia.
    cbv zeta in *; change (0 / 64) with 0 in *; rewrite N.add_0_r in *.
    eexists; cbn [b64_encode b64_values]; rewrite !b64_value_char by assumption.
    split; [reflexivity|]; cbn [b64_decode]; rewrite E0, E1; reflexivity.
  - inversion_clear HF as [|? ? Ha HF']; inversion_clear HF' as [|? ? Hb HF''].
    inversion_clear HF'' as [|? ? Hc Hl].
    destruct (IH Hl) as (vals & Hv & Hd).
    destruct (b64_group a b c Ha Hb Hc) as (H0 & H1 & H2 & H3 & E0 & E1 & E2).
    cbv zeta in *.
    eexists; cbn [b64_encode b64_values]; rewrite !b64_value_char by assumption.
    rewrite Hv; split; [reflexivity|]; cbn [b64_decode].
    rewrite E0, E1, E2, Hd; reflexivity.
Qed.

Lemma b64_encode_plain (bytes : list N) :
  Forall is_byte bytes ->
  Forall (fun c => is_ascii_whitespace c = false /\ c <> 61) (b64_encode bytes).
Proof.
  unfold is_byte; induction bytes as [|a|a b|a b c l IH] using list_ind3; intros HF.
  - constructor.
  - inversion_clear HF as [|? ? Ha _].
    destruct (b64_group a 0 0 Ha) as (H0 & H1 & _); try lia.
    cbv zeta in *; change (0 / 16) with 0 in *; rewrite N.add_0_r in *.
    cbn [b64_encode]; repeat constructor; apply b64_char_plain; assumption.
  - inversion_clear HF as [|? ? Ha HF']; inversion_clear HF' as [|? ? Hb _].
    destruct (b64_group a b 0 Ha Hb) as (H0 & H1 & H2 & _); try lia.
    cbv zeta in *; change (0 / 64) with 0 in *; rewrite N.add_0_r in *.
    cbn [b64_encode]; repeat constructor; apply b64_char_plain; assumption.
  - inversion_clear HF as [|? ? Ha HF']; inversion_clear HF' as [|? ? Hb HF''].
    inversion_clear HF'' as [|? ? Hc Hl].
    destruct (b64_group a b c Ha Hb Hc) as (H0 & H1 & H2 & H3 & _).
    cbv zeta in *; cbn [b64_encode].
    repeat (constructor; [apply b64_char_plain; assumption|]); apply IH; assumption.
Qed.

(** Lengths of the encoding and of its padding, by the length of the
    input modulo 3. *)
Lemma b64_encode_length (bytes : list N) :
  ((List.length bytes mod 3 = 0 /\ List.length (b64_encode bytes) mod 4 = 0 /\
   b64_padding bytes = []) \/
  (List.length bytes mod 3 = 1 /\ List.length (b64_encode bytes) mod 4 = 2 /\
   b64_padding bytes = [61; 61]%N) \/
  (List.length bytes mod 3 = 2 /\ List.length (b64_encode bytes) mod 4 = 3 /\
   b64_padding bytes = [61]%N))%nat.
Proof.
  induction bytes as [|a|a b|a b c l IH] using list_ind3.
  - left; auto.
  - right; left; auto.
  - right; right; auto.
  - assert (E3 : forall n, ((3 + n) mod 3 = n mod 3)%nat).
    { intros n; replace (3 + n)%nat with (n + 1 * 3)%nat by lia; apply Nat.Div0.mod_add. }
    assert (E4 : forall n, ((4 + n) mod 4 = n mod 4)%nat).
    { intros n; replace (4 + n)%nat with (n + 1 * 4)%nat by lia; apply Nat.Div0.mod_add. }
    unfold b64_padding in *.
    change (List.length (a :: b :: c :: l)) with (3 + List.length l)%nat.
    change (List.length (b64_encode (a :: b :: c :: l)))
      with (4 + List.length (b64_encode l))%nat.
    rewrite E3, E4; exact IH.
Qed.

Lemma strip_equals_plain (l : list N) :
  Forall (fun c => c <> 61) l -> strip_equals l = l.
Proof.
  intros HF; unfold strip_equals; destruct (rev l) as [|c r] eqn:E; [reflexivity|].
  assert (Hc : In c l) by (apply in_rev; rewrite E; left; reflexivity).
  rewrite Forall_forall in HF; apply HF in Hc.
  destruct (N.eqb_spec c 61); [contradiction|reflexivity].
Qed.

Lemma strip_equals_padded (l : list N) : strip_equals (l ++ [61]) = l.
Proof.
  unfold strip_equals; rewrite rev_app_distr; cbn [rev app].
  rewrite N.eqb_refl; apply rev_involutive.
Qed.

Lemma filter_all {A : Type} (f : A -> bool) (l : list A) :
  Forall (fun x => f x = true) l -> filter f l = l.
Proof.
  induction 1 as [|x l Hx _ IH]; cbn; [reflexivity|]; rewrite Hx, IH; reflexivity.
Qed.

Lemma is_byte_forallb (s : jsstring) :
  forallb (fun c => c <=? 255) s = true <-> Forall is_byte s.
Proof.
  rewrite forallb_forall, Forall_forall; unfold is_byte.
  split; intros H x Hx; apply H in Hx; apply N.leb_le; assumption.
Qed.

(** [atob] undoes [btoa] on the strings [btoa] accepts. *)
Lemma atob_btoa (s : jsstring) :
  Forall is_byte s -> exists t, btoa s = Some t /\ atob t = Some s.
Proof.
  intros HF; unfold btoa.
  rewrite (proj2 (is_byte_forallb s) HF); eexists; split; [reflexivity|].
  pose proof (b64_encode_plain s HF) as Hplain.
  assert (Hne : Forall (fun c => c <> 61) (b64_encode s)).
  { eapply Forall_impl; [|exact Hplain]; cbn; tauto. }
  destruct (b64_encode_values s HF) as (vals & Hv & Hd).
  assert (Hpad : Forall (fun c => negb (is_ascii_whitespace c) = true) (b64_padding s)).
  { unfold b64_padding; destruct (List.length s mod 3)%nat as [|[|[|n]]];
      repeat constructor. }
  unfold atob; rewrite filter_all.
  2:{ apply Forall_app; split; [|exact Hpad].
      eapply Forall_impl; [|exact Hplain]; cbn; intros c [-> _]; reflexivity. }
  assert (Hfin : (if (List.length (b64_encode s) mod 4 =? 1)%nat then None
                  else option_map b64_decode (b64_values (b64_encode s))) = Some s).
  { destruct (b64_encode_length s) as [(_ & L & _)|[(_ & L & _)|(_ & L & _)]];
      rewrite L, Hv; cbn [Nat.eqb option_map]; rewrite Hd; reflexivity. }
  assert (Hlen : (List.length (b64_encode s ++ b64_padding s) mod 4 = 0)%nat).
  { rewrite length_app, Nat.Div0.add_mod.
    destruct (b64_encode_length s) as [(_ & L & P)|[(_ & L & P)|(_ & L & P)]];
      rewrite L, P; reflexivity. }
  assert (Hstrip : strip_equals (strip_equals (b64_encode s ++ b64_padding s))
                   = b64_encode s).
  { destruct (b64_encode_length s) as [(_ & _ & P)|[(_ & _ & P)|(_ & _ & P)]]; rewrite P.
    - rewrite app_nil_r, !(strip_equals_plain (b64_encode s)) by assumption; reflexivity.
    - change [61; 61]%N with ([61] ++ [61])%N.
      rewrite app_assoc, !strip_equals_padded; reflexivity.
    - rewrite strip_equals_padded, (strip_equals_plain (b64_encode s)) by assumption.
      reflexivity. }
  rewrite Hlen; cbn [Nat.eqb]; rewrite Hstrip; exact Hfin.
Qed.

(** [btoa] throws exactly on the strings with a code unit above 255. *)
Lemma btoa_throws (s : jsstring) : btoa s = None <-> ~ Forall is_byte s.
Proof.
  unfold btoa; rewrite <- is_byte_forallb.
  destruct (forallb _ s); split; intros H; congruence.
Qed.

Close Scope N_scope.

(** ** JSON values, [JSON.parse] and the quoting of [JSON.stringify] *)

(** The values of JSON.  A number of a parsed text is finite; [JNum] also
    holds the numbers computed in memory.  [undefined] is [None] of
    [jsval]. *)
#[local] Unset Elimination Schemes.

Inductive json : Type :=
| JNull
| JBool (b : bool)
| JNum (x : num)
| JStr (s : jsstring)
| JArr (l : list json)
| JObj (m : list (jsstring * json)).

#[local] Set Elimination Schemes.

Definition jsval : Type := option json.

Open Scope N_scope.

Definition hex_digit (n : N) : N := if n <? 10 then 48 + n else 97 + (n - 10).

(** [\uXXXX] with lower-case digits. *)
Definition unicode_escape (c : N) : list N :=
  [92; 117; hex_digit (c / 4096); hex_digit ((c / 256) mod 16);
   hex_digit ((c / 16) mod 16); hex_digit (c mod 16)].

Definition is_high_surrogate (c : N) : bool := (55296 <=? c) && (c <=? 56319).
Definition is_low_surrogate (c : N) : bool := (56320 <=? c) && (c <=? 57343).

(** The escape of a code unit that QuoteJSONString always escapes. *)
Definition json_escape (c : N) : option (list N) :=
  if c =? 8 then Some [92; 98]
  else if c =? 9 then Some [92; 116]
  else if c =? 10 then Some [92; 110]
  else if c =? 12 then Some [92; 102]
  else if c =? 13 then Some [92; 114]
  else if c =? 34 then Some [92; 34]
  else if c =? 92 then Some [92; 92]
  else if c <? 32 then Some (unicode_escape c)
  else None.

(** The characters between the quotes of QuoteJSONString: a surrogate is
    left as it is when it is part of a pair and escaped when it is alone. *)
Fixpoint quote_chars (s : list N) : list N :=
  match s with
  | [] => []
  | c :: s' =>
      match json_escape c with
      | Some e => e ++ quote_chars s'
      | None =>
          if is_high_surrogate c then
            match s' with
            | d :: s'' =>
                if is_low_surrogate d then c :: d :: quote_chars s''
                else unicode_escape c ++ quote_chars s'
            | [] => unicode_escape c
            end
          else if is_low_surrogate c then unicode_escape c ++ quote_chars s'
          else c :: quote_chars s'
      end
  end.

Definition QuoteJSONString (s : jsstring) : jsstring := 34 :: quote_chars s ++ [34].

Definition hex_value (c : N) : option N :=
  if (48 <=? c) && (c <=? 57) then Some (c - 48)
  else if (97 <=? c) && (c <=? 102) then Some (c - 97 + 10)
  else if (65 <=? c) && (c <=? 70) then Some (c - 65 + 10)
  else None.

Definition hex4 (a b c d : N) : option N :=
  match hex_value a, hex_value b, hex_value c, hex_value d with
  | Some x, Some y, Some z, Some w => Some (((x * 16 + y) * 16 + z) * 16 + w)
  | _, _, _, _ => None
  end.

(** The character of a one-letter escape of a JSON string. *)
Definition simple_escape (e : N) : option N :=
  if e =? 34 then Some 34
  else if e =? 92 then Some 92
  else if e =? 47 then Some 47
  else if e =? 98 then Some 8
  else if e =? 102 then Some 12
  else if e =? 110 then Some 10
  else if e =? 114 then Some 13
  else if e =? 116 then Some 9
  else None.

Definition cons_result {A : Type} (c : A) (r : option (list A * list N))
    : option (list A * list N) :=
  match r with
  | Some (l, rest) => Some (c :: l, rest)
  | None => None
  end.

(** The characters of a JSON string after its opening quote, up to the
    closing one. *)
Fixpoint parse_chars (s : list N) : option (jsstring * list N) :=
  match s with
  | [] => None
  | c :: s' =>
      if c =? 34 then Some ([], s')
      else if c =? 92 then
        match s' with
        | [] => None
        | e :: s'' =>
            if e =? 117 then
              match s'' with
              | h1 :: h2 :: h3 :: h4 :: s3 =>
                  match hex4 h1 h2 h3 h4 with
                  | Some v => cons_result v (parse_chars s3)
                  | None => None
                  end
              | _ => None
              end
            else
              match simple_escape e with
              | Some v => cons_result v (parse_chars s'')
              | None => None
              end
        end
      else if c <? 32 then None
      else cons_result c (parse_chars s')
  end.

Definition is_json_whitespace (c : N) : bool :=
  (c =? 32) || (c =? 9) || (c =? 10) || (c =? 13).

Fixpoint skip_ws (s : list N) : list N :=
  match s with
  | c :: s' => if is_json_whitespace c then skip_ws s' else s
  | [] => []
  end.

Definition is_digit (c : N) : bool := (48 <=? c) && (c <=? 57).

Fixpoint take_digits (s : list N) : list N * list N :=
  match s with
  | c :: s' =>
      if is_digit c then let (ds, r) := take_digits s' in (c :: ds, r) else ([], s)
  | [] => ([], [])
  end.

Definition digits_value (ds : list N) : N :=
  fold_left (fun a c => 10 * a + (c - 48)) ds 0.

(** The digits of the integer part of a JSON number: at least one, and no
    leading zero before another digit. *)
Definition take_int (s : list N) : option (N * list N) :=
  match take_digits s with
  | ([], _) => None
  | ([d], r) => Some (digits_value [d], r)
  | (d :: ds, r) => if d =? 48 then None else Some (digits_value (d :: ds), r)
  end.

(** [. digits], when there is a fraction. *)
Definition take_frac (s : list N) : option (option (list N) * list N) :=
  match s with
  | c :: s' =>
      if c =? 46 then
        match take_digits s' with
        | ([], _) => None
        | (ds, r) => Some (Some ds, r)
        end
      else Some (None, s)
  | [] => Some (None, s)
  end.

(** [e] or [E], a sign and digits, when there is an exponent: the sign is
    [true] for [-]. *)
Definition take_exp (s : list N) : option (option (bool * N) * list N) :=
  match s with
  | c :: s' =>
      if (c =? 101) || (c =? 69) then
        let (negative, s'') :=
          match s' with
          | d :: t => if d =? 45 then (true, t) else if d =? 43 then (false, t) else (false, s')
          | [] => (false, s')
          end in
        match take_digits s'' with
        | ([], _) => None
        | (ds, r) => Some (Some (negative, digits_value ds), r)
        end
      else Some (None, s)
  | [] => Some (None, s)
  end.

Close Scope N_scope.

(** The value of a JSON number, exactly: a literal beyond the range of
    binary64, which the code reads as an infinity, keeps its value. *)
Definition number_value (negative : bool) (int : N) (frac : option (list N))
    (exponent : option (bool * N)) : R :=
  let m := match frac with
           | None => IZR (Z.of_N int)
           | Some ds => IZR (Z.of_N int)
                        + IZR (Z.of_N (digits_value ds)) / 10 ^ List.length ds
           end in
  let m := if negative then - m else m in
  match exponent with
  | None => m
  | Some (true, e) => m / 10 ^ N.to_nat e
  | Some (false, e) => m * 10 ^ N.to_nat e
  end.

Definition parse_number (s : list N) : option (json * list N) :=
  let (negative, s1) :=
    match s with
    | c :: t => if N.eqb c 45 then (true, t) else (false, s)
    | [] => (false, s)
    end in
  match take_int s1 with
  | None => None
  | Some (int, s2) =>
      match take_frac s2 with
      | None => None
      | Some (frac, s3) =>
          match take_exp s3 with
          | None => None
          | Some (exponent, s4) =>
              Some (JNum (Fin (number_value negative int frac exponent)), s4)
          end
      end
  end.

Fixpoint strip_prefix (p s : list N) : option (list N) :=
  match p, s with
  | [], _ => Some s
  | a :: p', b :: s' => if N.eqb a b then strip_prefix p' s' else None
  | _ :: _, [] => None
  end.

Definition parse_literal (s : list N) : option (json * list N) :=
  match strip_prefix (str "true") s with
  | Some r => Some (JBool true, r)
  | None =>
      match strip_prefix (str "false") s with
      | Some r => Some (JBool false, r)
      | None =>
          match strip_prefix (str "null") s with
          | Some r => Some (JNull, r)
          | None => None
          end
      end
  end.

Definition starts_with (c : N) (s : list N) : option (list N) :=
  match s with
  | d :: r => if N.eqb c d then Some r else None
  | [] => None
  end.

(** A JSON value at the head of [s] (no white space before it), and the
    rest of the text.  [fuel] bounds the depth of the recursion. *)
Fixpoint parse_value (fuel : nat) (s : list N) : option (json * list N) :=
  match fuel with
  | O => None
  | S f =>
      match s with
      | [] => None
      | c :: s' =>
          if N.eqb c 34 then
            match parse_chars s' with
            | Some (t, r) => Some (JStr t, r)
            | None => None
            end
          else if N.eqb c 123 then
            match starts_with 125 (skip_ws s') with
            | Some r => Some (JObj [], r)
            | None =>
                match parse_members f (skip_ws s') with
                | Some (m, r) => Some (JObj m, r)
                | None => None
                end
            end
          else if N.eqb c 91 then
            match starts_with 93 (skip_ws s') with
            | Some r => Some (JArr [], r)
            | None =>
                match parse_elements f (skip_ws s') with
                | Some (l, r) => Some (JArr l, r)
                | None => None
                end
            end
          else if N.eqb c 45 || is_digit c then parse_number s
          else parse_literal s
      end
  end
with parse_members (fuel : nat) (s : list N)
    : option (list (jsstring * json) * list N) :=
  match fuel with
  | O => None
  | S f =>
      match starts_with 34 s with
      | None => None
      | Some s1 =>
          match parse_chars s1 with
          | None => None
          | Some (k, s2) =>
              match starts_with 58 (skip_ws s2) with
              | None => None
              | Some s3 =>
                  match parse_value f (skip_ws s3) with
                  | None => None
                  | Some (v, s4) =>
                      match starts_with 44 (skip_ws s4) with
                      | Some s5 => cons_result (k, v) (parse_members f (skip_ws s5))
                      | None =>
                          match starts_with 125 (skip_ws s4) with
                          | Some s5 => Some ([(k, v)], s5)
                          | None => None
                          end
                      end
                  end
              end
          end
      end
  end
with parse_elements (fuel : nat) (s : list N) : option (list json * list N) :=
  match fuel with
  | O => None
  | S f =>
      match parse_value f s with
      | None => None
      | Some (v, s1) =>
          match starts_with 44 (skip_ws s1) with
          | Some s2 => cons_result v (parse_elements f (skip_ws s2))
          | None =>
              match starts_with 93 (skip_ws s1) with
              | Some s2 => Some ([v], s2)
              | None => None
              end
          end
      end
  end.

(** [JSON.parse]: [None] is the [SyntaxError]. *)
Definition JSON_parse (text : jsstring) : option json :=
  match parse_value (S (List.length text)) (skip_ws text) with
  | Some (v, r) => match skip_ws r with [] => Some v | _ :: _ => None end
  | None => None
  end.

Example JSON_parse_empty_object : JSON_parse (str "{}") = Some (JObj []).
Proof. reflexivity. Qed.

(** [ { 'a' : [true, null, 'x\n'] , 'b':{} } ] with double quotes. *)
Example JSON_parse_nested :
  JSON_parse (List.map (fun c => if N.eqb c 39 then 34%N else c)
                       (str " { 'a' : [true, null, 'x\n'] , 'b':{} } "))
  = Some (JObj [(str "a", JArr [JBool true; JNull; JStr [120%N; 10%N]]); (str "b", JObj [])]).
Proof. reflexivity. Qed.

Example JSON_parse_rejects_trailing_comma : JSON_parse (str "[1,]") = None.
Proof. reflexivity. Qed.

Example atob_empty_object : atob (str "e30=") = Some (str "{}").
Proof. reflexivity. Qed.

(** *** Strings survive quoting and parsing *)

Open Scope N_scope.

Ltac case_N_tests :=
  repeat match goal with
         | |- context [?a =? ?b] => destruct (N.eqb_spec a b); [try lia|]
         | |- context [?a <? ?b] => destruct (N.ltb_spec a b); try lia
         | |- context [?a <=? ?b] => destruct (N.leb_spec a b); try lia
         end.

Lemma hex_value_digit (n : N) : n < 16 -> hex_value (hex_digit n) = Some n.
Proof.
  intros H; unfold hex_digit, hex_value.
  destruct (N.ltb_spec n 10).
  - replace ((48 <=? 48 + n) && (48 + n <=? 57)) with true
      by (symmetry; apply andb_true_intro; split; apply N.leb_le; lia).
    f_equal; lia.
  - replace ((48 <=? 97 + (n - 10)) && (97 + (n - 10) <=? 57)) with false
      by (symmetry; apply andb_false_intro2; apply N.leb_gt; lia).
    replace ((97 <=? 97 + (n - 10)) && (97 + (n - 10) <=? 102)) with true
      by (symmetry; apply andb_true_intro; split; apply N.leb_le; lia).
    f_equal; lia.
Qed.

Lemma hex4_digits (c : N) :
  c < 65536 ->
  hex4 (hex_digit (c / 4096)) (hex_digit ((c / 256) mod 16))
       (hex_digit ((c / 16) mod 16)) (hex_digit (c mod 16)) = Some c.
Proof.
  intros H; unfold hex4.
  assert (H3 : c / 4096 < 16) by (apply N.Div0.div_lt_upper_bound; lia).
  pose proof (N.mod_lt (c / 256) 16 ltac:(lia)).
  pose proof (N.mod_lt (c / 16) 16 ltac:(lia)).
  pose proof (N.mod_lt c 16 ltac:(lia)).
  rewrite !hex_value_digit by assumption; f_equal.
  pose proof (N.div_mod c 16 ltac:(lia)) as E1.
  pose proof (N.div_mod (c / 16) 16 ltac:(lia)) as E2.
  pose proof (N.div_mod (c / 256) 16 ltac:(lia)) as E3.
  replace (c / 256) with (c / 16 / 16) in * by (rewrite N.Div0.div_div; reflexivity).
  replace (c / 4096) with (c / 16 / 16 / 16) in *
    by (rewrite !N.Div0.div_div; reflexivity).
  lia.
Qed.

Lemma parse_unicode_escape (c : N) (rest : list N) :
  c < 65536 ->
  parse_chars (unicode_escape c ++ rest) = cons_result c (parse_chars rest).
Proof.
  intros H; unfold unicode_escape; cbn [app parse_chars].
  change (92 =? 34) with false; change (92 =? 92) with true.
  change (117 =? 117) with true; cbv iota.
  rewrite hex4_digits by assumption; reflexivity.
Qed.

Lemma json_escape_none (c : N) :
  json_escape c = None -> 32 <= c /\ c <> 34 /\ c <> 92.
Proof.
  unfold json_escape; case_N_tests; try discriminate; intros _; lia.
Qed.

Lemma parse_raw (c : N) (rest : list N) :
  32 <= c -> c <> 34 -> c <> 92 ->
  parse_chars (c :: rest) = cons_result c (parse_chars rest).
Proof.
  intros H1 H2 H3; cbn [parse_chars]; case_N_tests; reflexivity.
Qed.

Lemma parse_json_escape (c : N) (e rest : list N) :
  json_escape c = Some e ->
  parse_chars (e ++ rest) = cons_result c (parse_chars rest).
Proof.
  unfold json_escape.
  destruct (N.eqb_spec c 8); [intros [= <-]; subst; reflexivity|].
  destruct (N.eqb_spec c 9); [intros [= <-]; subst; reflexivity|].
  destruct (N.eqb_spec c 10); [intros [= <-]; subst; reflexivity|].
  destruct (N.eqb_spec c 12); [intros [= <-]; subst; reflexivity|].
  destruct (N.eqb_spec c 13); [intros [= <-]; subst; reflexivity|].
  destruct (N.eqb_spec c 34); [intros [= <-]; subst; reflexivity|].
  destruct (N.eqb_spec c 92); [intros [= <-]; subst; reflexivity|].
  destruct (N.ltb_spec c 32); [|discriminate].
  intros [= <-]; apply parse_unicode_escape; lia.
Qed.

Lemma surrogate_bound (c : N) :
  is_high_surrogate c = true \/ is_low_surrogate c = true -> c < 65536.
Proof.
  unfold is_high_surrogate, is_low_surrogate; intros [H|H];
    apply andb_prop in H; destruct H as [_ H]; apply N.leb_le in H; lia.
Qed.

Lemma list_ind2 {A : Type} (P : list A -> Prop) :
  P [] -> (forall a, P [a]) ->
  (forall a b l, P l -> P (b :: l) -> P (a :: b :: l)) ->
  forall l, P l.
Proof.
  intros H0 H1 H2.
  assert (H : forall l, P l /\ (forall a, P (a :: l))).
  { induction l as [|x l (IH0 & IH1)]; [auto|].
    split; [apply IH1|]; intros a; apply H2; [assumption|apply IH1]. }
  intros l; apply H.
Qed.

Lemma quote_chars_cons2 (c d : N) (s : list N) :
  quote_chars (c :: d :: s) =
  match json_escape c with
  | Some e => e ++ quote_chars (d :: s)
  | None =>
      if is_high_surrogate c then
        if is_low_surrogate d then c :: d :: quote_chars s
        else unicode_escape c ++ quote_chars (d :: s)
      else if is_low_surrogate c then unicode_escape c ++ quote_chars (d :: s)
      else c :: quote_chars (d :: s)
  end.
Proof. reflexivity. Qed.

(** Parsing the quoted form of a string gives the string back, whatever
    its code units are. *)
Lemma parse_quote_chars (s : jsstring) (rest : list N) :
  parse_chars (quote_chars s ++ 34 :: rest) = Some (s, rest).
Proof.
  revert rest; induction s as [|c|c d s IH IHd] using list_ind2; intros rest.
  - reflexivity.
  - cbn [quote_chars]; destruct (json_escape c) as [e|] eqn:E.
    + rewrite <- app_assoc, (parse_json_escape c e _ E); reflexivity.
    + destruct (json_escape_none c E) as (H1 & H2 & H3).
      destruct (is_high_surrogate c) eqn:Hh; [|destruct (is_low_surrogate c) eqn:Hl].
      * rewrite parse_unicode_escape by (apply surrogate_bound; auto); reflexivity.
      * rewrite <- app_assoc, parse_unicode_escape by (apply surrogate_bound; auto).
        reflexivity.
      * cbn [app]; rewrite parse_raw by assumption; reflexivity.
  - rewrite quote_chars_cons2.
    destruct (json_escape c) as [e|] eqn:E.
    + rewrite <- app_assoc, (parse_json_escape c e _ E), IHd; reflexivity.
    + destruct (json_escape_none c E) as (H1 & H2 & H3).
      destruct (is_high_surrogate c) eqn:Hh; [|destruct (is_low_surrogate c) eqn:Hl].
      * destruct (is_low_surrogate d) eqn:Hd.
        -- assert (Hd' : 32 <= d /\ d <> 34 /\ d <> 92).
           { unfold is_low_surrogate in Hd; apply andb_prop in Hd.
             destruct Hd as [Hd _]; apply N.leb_le in Hd; lia. }
           cbn [app]; rewrite parse_raw by assumption.
           rewrite parse_raw by tauto; rewrite IH; reflexivity.
        -- rewrite <- app_assoc, parse_unicode_escape by (apply surrogate_bound; auto).
           rewrite IHd; reflexivity.
      * rewrite <- app_assoc, parse_unicode_escape by (apply surrogate_bound; auto).
        rewrite IHd; reflexivity.
      * cbn [app]; rewrite parse_raw by assumption; rewrite IHd; reflexivity.
Qed.

Close Scope N_scope.

(** *** Decimal digits of a natural number *)

Open Scope N_scope.

(** The digits of [n], the last one first. *)
Fixpoint rev_digits (fuel : nat) (n : N) : list N :=
  match fuel with
  | O => []
  | S f => (48 + n mod 10) :: (if n <? 10 then [] else rev_digits f (n / 10))
  end.

(** The decimal representation of [n], without leading zero. *)
Definition decimal (n : N) : jsstring :=
  rev (rev_digits (S (N.to_nat (N.size n))) n).

Example decimal_0 : decimal 0 = str "0".
Proof. reflexivity. Qed.

Example decimal_100 : decimal 100 = str "100".
Proof. reflexivity. Qed.

Example decimal_large : decimal 18446744073709551616 = str "18446744073709551616".
Proof. reflexivity. Qed.

Lemma digits_value_snoc (l : list N) (c : N) :
  digits_value (l ++ [c]) = 10 * digits_value l + (c - 48).
Proof. unfold digits_value; rewrite fold_left_app; reflexivity. Qed.

(** What the digits of [n] are: digits, with value [n], and the first is
    not a zero unless it is the only one. *)
Definition digits_of (n : N) (l : list N) : Prop :=
  Forall (fun c => is_digit c = true) l /\ digits_value l = n /\
  exists d ds, l = d :: ds /\ (ds = [] \/ d <> 48).

Lemma is_digit_true (c : N) : is_digit c = true <-> 48 <= c <= 57.
Proof.
  unfold is_digit; rewrite andb_true_iff, !N.leb_le; tauto.
Qed.

Lemma rev_digits_spec (f : nat) (n : N) :
  n < 2 ^ N.of_nat f -> digits_of n (rev (rev_digits (S f) n)).
Proof.
  revert n; induction f as [|f IH]; intros n Hn.
  - assert (n = 0) by (cbn in Hn; lia); subst n.
    repeat split; [repeat constructor|]; exists 48, []; auto.
  - pose proof (N.mod_lt n 10 ltac:(lia)) as Hm.
    pose proof (N.div_mod n 10 ltac:(lia)) as Hd.
    change (rev_digits (S (S f)) n)
      with ((48 + n mod 10) :: (if n <? 10 then [] else rev_digits (S f) (n / 10))).
    assert (Hq : 10 <= n -> n / 10 < 2 ^ N.of_nat f).
    { intros _; apply N.Div0.div_lt_upper_bound.
      replace (N.of_nat (S f)) with (N.succ (N.of_nat f)) in Hn by lia.
      rewrite N.pow_succ_r' in Hn; lia. }
    clear Hn; set (m := n mod 10) in *; set (q := n / 10) in *.
    assert (Hdigit : is_digit (48 + m) = true) by (apply is_digit_true; lia).
    destruct (N.ltb_spec n 10) as [Hlt|Hge].
    + cbn [rev app]; repeat split; [repeat constructor; assumption| |].
      * unfold digits_value; cbn [fold_left]; lia.
      * exists (48 + m), []; auto.
    + destruct (IH _ (Hq Hge)) as (HF & Hv & d & ds & El & Hlead).
      cbn [rev]; repeat split.
      * apply Forall_app; split; [assumption|repeat constructor; assumption].
      * rewrite digits_value_snoc, Hv; lia.
      * exists d, (ds ++ [48 + m]); rewrite El; split; [reflexivity|].
        right; destruct Hlead as [-> | Hne]; [|assumption].
        rewrite El in Hv; unfold digits_value in Hv; cbn [fold_left] in Hv.
        intros ->; lia.
Qed.

Lemma decimal_spec (n : N) : digits_of n (decimal n).
Proof.
  unfold decimal; apply rev_digits_spec.
  rewrite N2Nat.id; apply N.size_gt.
Qed.

(** The text after a number does not continue it. *)
Definition ends_number (rest : list N) : Prop :=
  match rest with
  | [] => True
  | c :: _ => is_digit c = false /\ c <> 46 /\ c <> 101 /\ c <> 69
  end.

Lemma take_digits_app (l rest : list N) :
  Forall (fun c => is_digit c = true) l ->
  match rest with [] => True | c :: _ => is_digit c = false end ->
  take_digits (l ++ rest) = (l, rest).
Proof.
  intros HF Hr; induction HF as [|c l Hc _ IH]; cbn [app take_digits].
  - destruct rest as [|c r]; cbn [take_digits]; [reflexivity|]; rewrite Hr; reflexivity.
  - rewrite Hc, IH; reflexivity.
Qed.

Close Scope N_scope.

(** A number printed in decimal parses to itself. *)
Lemma parse_number_decimal (n : N) (rest : list N) :
  ends_number rest ->
  parse_number (decimal n ++ rest) = Some (JNum (Fin (IZR (Z.of_N n))), rest).
Proof.
  intros Hr; destruct (decimal_spec n) as (HF & Hv & d & ds & El & Hlead).
  assert (Hd : is_digit d = true).
  { rewrite El in HF; inversion HF; assumption. }
  assert (Hd45 : N.eqb d 45 = false).
  { apply is_digit_true in Hd; apply N.eqb_neq; lia. }
  unfold parse_number.
  replace (match decimal n ++ rest with
           | [] => (false, decimal n ++ rest)
           | c :: t => if N.eqb c 45 then (true, t) else (false, decimal n ++ rest)
           end) with (false, decimal n ++ rest)
    by (rewrite El; cbn [app]; rewrite Hd45; reflexivity).
  unfold take_int; rewrite take_digits_app;
    [|assumption|destruct rest; [exact I|exact (proj1 Hr)]].
  assert (Hint : match decimal n with
                 | [] => None
                 | [d0] => Some (digits_value [d0], rest)
                 | d0 :: (_ :: _) as ds0 =>
                     if N.eqb d0 48 then None else Some (digits_value (d0 :: ds0), rest)
                 end = Some (n, rest)).
  { rewrite El in Hv |- *; rewrite <- Hv; destruct ds as [|d' ds']; [reflexivity|].
    destruct Hlead as [?|Hne]; [discriminate|].
    rewrite (proj2 (N.eqb_neq d 48) Hne); reflexivity. }
  rewrite Hint.
  destruct rest as [|c r].
  - reflexivity.
  - destruct Hr as (_ & H46 & H101 & H69); cbn [take_frac].
    rewrite (proj2 (N.eqb_neq c 46) H46); cbn [take_exp].
    rewrite (proj2 (N.eqb_neq c 101) H101), (proj2 (N.eqb_neq c 69) H69); reflexivity.
Qed.

(** ** The share link: [shareRisk] (lines 627-636) and [parseHash]
    (lines 215-239) *)

(** The risk result the component holds.  A center is any value: the
    result comes from the local computation, from the backend or from a
    link. *)
Module Shared.
Record Index : Type := mkIndex {
  center : jsval;
  low : num;
  high : num
}.
Record Indices : Type := mkIndices {
  heat : Index;
  cold : Index;
  wind : Index;
  wet : Index
}.
Record Meta : Type := mkMeta {
  source : jsstring;
  lat : R;
  lon : R;
  date : jsval
}.
Record Result : Type := mkResult {
  meta : Meta;
  indices : Indices
}.
End Shared.

Record City : Type := mkCity {
  name : jsstring;
  city_lat : R;
  city_lon : R
}.

Definition Sydney : City := mkCity (str "Sydney") (-33.8688) 151.2093.

(** The state of the component that the share link reads and writes. *)
Record State : Type := mkState {
  city : City;
  dateISO : jsval;
  riskResult : option Shared.Result
}.

Fixpoint join (sep : list N) (l : list (list N)) : list N :=
  match l with
  | [] => []
  | [x] => x
  | x :: l' => x ++ sep ++ join sep l'
  end.

Fixpoint prefixb (p s : list N) : bool :=
  match p, s with
  | [], _ => true
  | a :: p', b :: s' => N.eqb a b && prefixb p' s'
  | _ :: _, [] => false
  end.

(** [s.indexOf(p)], with [None] for [-1]. *)
Fixpoint indexOf (s p : list N) : option nat :=
  if prefixb p s then Some 0%nat
  else match s with
       | [] => None
       | _ :: s' => option_map S (indexOf s' p)
       end.

(** [payload.k] for an object of JSON: the last member named [k] of the
    text.  On an array the names the decoder reads ([d], [h], [c], [w],
    [r]) are [undefined]. *)
Definition get (payload : json) (k : jsstring) : jsval :=
  match payload with
  | JObj m => assoc k (rev m)
  | _ => None
  end.

(** [payload && typeof payload === 'object'] *)
Definition is_object (payload : json) : bool :=
  match payload with
  | JObj _ | JArr _ => true
  | _ => false
  end.

Section ShareCodec.

(** Number::toString on finite numbers, and StringToNumber. *)
Variable Number_toString : R -> jsstring.
Variable StringToNumber : jsstring -> num.

Definition ToString_num (x : num) : jsstring :=
  match x with
  | NaN => str "NaN"
  | PInf => str "Infinity"
  | NInf => str "-Infinity"
  | Fin r => Number_toString r
  end.

(** ToString; an array is joined with commas, [null] elements giving the
    empty string. *)
Fixpoint ToString (v : json) : jsstring :=
  match v with
  | JNull => str "null"
  | JBool true => str "true"
  | JBool false => str "false"
  | JNum x => ToString_num x
  | JStr s => s
  | JArr l => join [44%N] (List.map (fun e => match e with
                                              | JNull => []
                                              | _ => ToString e
                                              end) l)
  | JObj _ => str "[object Object]"
  end.

(** ToPrimitive: arrays and objects become their string. *)
Definition ToPrimitive (v : json) : json :=
  match v with
  | JArr _ | JObj _ => JStr (ToString v)
  | _ => v
  end.

Definition ToNumber (v : jsval) : num :=
  match v with
  | None => NaN
  | Some j =>
      match ToPrimitive j with
      | JNull => Fin 0
      | JBool true => Fin 1
      | JBool false => Fin 0
      | JNum x => x
      | JStr s => StringToNumber s
      | _ => NaN
      end
  end.

(** [v - n] *)
Definition js_minus (v : jsval) (n : num) : num := sub (ToNumber v) n.

(** [v + n]: concatenation when [v] is a string, an array or an object. *)
Definition js_plus (v : jsval) (n : num) : jsval :=
  match option_map ToPrimitive v with
  | Some (JStr s) => Some (JStr (s ++ ToString_num n))
  | _ => Some (JNum (add (ToNumber v) n))
  end.

Definition ToBoolean (v : jsval) : bool :=
  match v with
  | None | Some JNull => false
  | Some (JBool b) => b
  | Some (JNum (Fin r)) => negb (Reqb r 0)
  | Some (JNum NaN) => false
  | Some (JNum _) => true
  | Some (JStr s) => match s with [] => false | _ :: _ => true end
  | Some _ => true
  end.

(** [JSON.stringify] of a value of JSON, without indentation. *)
Fixpoint JSON_stringify (v : json) : jsstring :=
  match v with
  | JNull => str "null"
  | JBool true => str "true"
  | JBool false => str "false"
  | JNum (Fin r) => Number_toString r
  | JNum _ => str "null"
  | JStr s => QuoteJSONString s
  | JArr l => [91%N] ++ join [44%N] (List.map JSON_stringify l) ++ [93%N]
  | JObj m =>
      [123%N] ++ join [44%N] (List.map (fun kv => match kv with
                                                  | (k, e) => QuoteJSONString k ++ [58%N]
                                                              ++ JSON_stringify e
                                                  end) m) ++ [125%N]
  end.

(** The object of an object literal: a property whose value is
    [undefined] is there, and [JSON.stringify] leaves it out. *)
Definition JSON_stringify_literal (props : list (jsstring * jsval)) : jsstring :=
  JSON_stringify
    (JObj (flat_map (fun kv => match kv with
                               | (k, Some v) => [(k, v)]
                               | (_, None) => []
                               end) props)).

(** [{ center: payload.k, low: Math.max(0, payload.k-10),
      high: Math.min(100, payload.k+10) }] *)
Definition sharedIndex (payload : json) (k : jsstring) : Shared.Index :=
  Shared.mkIndex (get payload k)
                 (Math_max (Fin 0) (js_minus (get payload k) (Fin 10)))
                 (Math_min (Fin 100) (ToNumber (js_plus (get payload k) (Fin 10)))).

Definition marker : jsstring := str "#comfort=".

Definition decodePayload (payload : json) : Shared.Result :=
  Shared.mkResult
    (Shared.mkMeta (str "shared") (-33.8688) 151.2093 (get payload (str "d")))
    (Shared.mkIndices (sharedIndex payload (str "h")) (sharedIndex payload (str "c"))
                      (sharedIndex payload (str "w")) (sharedIndex payload (str "r"))).

(** [parseHash] on [window.location.hash]: every exception is caught and
    leaves the state as it is. *)
Definition parseHash (hash : jsstring) (st : State) : State :=
  match indexOf hash marker with
  | None => st
  | Some idx =>
      let enc := skipn (idx + List.length marker) hash in
      match atob enc with
      | None => st
      | Some text =>
          match JSON_parse text with
          | None => st
          | Some payload =>
              if is_object payload then
                mkState Sydney
                        (if ToBoolean (get payload (str "d"))
                         then get payload (str "d") else dateISO st)
                        (Some (decodePayload payload))
              else st
          end
      end
  end.

(** The payload of [shareRisk] and its encoding; [None] when [btoa]
    throws. *)
Definition sharePayload (st : State) (r : Shared.Result) : list (jsstring * jsval) :=
  [(str "d", dateISO st);
   (str "h", Shared.center (Shared.heat (Shared.indices r)));
   (str "c", Shared.center (Shared.cold (Shared.indices r)));
   (str "w", Shared.center (Shared.wind (Shared.indices r)));
   (str "r", Shared.center (Shared.wet (Shared.indices r)))].

Definition shareHash (st : State) (r : Shared.Result) : option jsstring :=
  btoa (JSON_stringify_literal (sharePayload st r)).

(** The link that [shareRisk] copies, [None] when it fails. *)
Definition shareLink (origin pathname : jsstring) (st : State) : option jsstring :=
  match riskResult st with
  | None => None
  | Some r =>
      match shareHash st r with
      | Some hash => Some (origin ++ pathname ++ marker ++ hash)
      | None => None
      end
  end.


(** *** Flat objects survive [JSON.stringify] and [JSON.parse] *)

(** Number::toString prints the natural numbers up to 100 in decimal. *)
Hypothesis Number_toString_nat :
  forall n : N, (n <= 100)%N -> Number_toString (IZR (Z.of_N n)) = decimal n.

(** A string, or a natural number up to 100. *)
Definition flat (v : json) : Prop :=
  match v with
  | JStr _ => True
  | JNum (Fin r) => exists n : N, (n <= 100)%N /\ r = IZR (Z.of_N n)
  | _ => False
  end.

(** The text goes on with a comma or a closing brace. *)
Definition ends_member (rest : list N) : Prop :=
  exists r, rest = 44%N :: r \/ rest = 125%N :: r.

Lemma ends_member_number (rest : list N) : ends_member rest -> ends_number rest.
Proof.
  intros [r [-> | ->]]; cbn; repeat split; intros; discriminate.
Qed.

Lemma skip_ws_plain (c : N) (s : list N) :
  is_json_whitespace c = false -> skip_ws (c :: s) = c :: s.
Proof. intros H; cbn [skip_ws]; rewrite H; reflexivity. Qed.

Lemma parse_value_flat (v : json) (fuel : nat) (rest : list N) :
  flat v -> ends_member rest ->
  parse_value (S fuel) (JSON_stringify v ++ rest) = Some (v, rest) /\
  skip_ws (JSON_stringify v ++ rest) = JSON_stringify v ++ rest.
Proof.
  intros Hv Hr; destruct v as [| |[| | |x]|s| |]; try contradiction.
  - destruct Hv as (n & Hn & ->); cbn [JSON_stringify].
    rewrite Number_toString_nat by assumption.
    destruct (decimal_spec n) as (HF & _ & d & ds & El & _).
    assert (Hd : (48 <= d <= 57)%N).
    { apply is_digit_true; rewrite El in HF; inversion HF; assumption. }
    pose proof (parse_number_decimal n rest (ends_member_number rest Hr)) as Hp.
    rewrite El in *; cbn [app] in *; split.
    + cbn [parse_value].
      rewrite (proj2 (N.eqb_neq d 34)), (proj2 (N.eqb_neq d 123)),
        (proj2 (N.eqb_neq d 91)) by lia.
      rewrite (proj2 (is_digit_true d) Hd), orb_true_r; exact Hp.
    + apply skip_ws_plain; unfold is_json_whitespace.
      rewrite !(proj2 (N.eqb_neq d _)) by lia; reflexivity.
  - cbn [JSON_stringify]; unfold QuoteJSONString; cbn [app]; split; [|reflexivity].
    cbn [parse_value]; change (N.eqb 34 34) with true; cbv iota.
    rewrite <- app_assoc; cbn [app]; rewrite parse_quote_chars; reflexivity.
Qed.

(** The text of a member and of a list of members. *)
Definition member_text (kv : jsstring * json) : jsstring :=
  match kv with
  | (k, e) => QuoteJSONString k ++ [58%N] ++ JSON_stringify e
  end.

Lemma parse_members_flat (m : list (jsstring * json)) :
  m <> [] -> Forall (fun kv => flat (snd kv)) m ->
  forall (fuel : nat) (rest : list N),
    (List.length m < fuel)%nat ->
    parse_members fuel (join [44%N] (List.map member_text m) ++ 125%N :: rest)
    = Some (m, rest).
Proof.
  induction m as [|[k v] m IH]; [congruence|]; intros _ HF fuel rest Hfuel.
  inversion_clear HF as [|? ? Hv HF']; cbn [snd] in Hv.
  destruct fuel as [|[|fuel]]; [cbn in Hfuel; lia|cbn in Hfuel; lia|].
  assert (Hstep : forall tail, ends_member tail ->
            parse_members (S (S fuel))
              (member_text (k, v) ++ tail) =
            match starts_with 44 (skip_ws tail) with
            | Some s5 => cons_result (k, v) (parse_members (S fuel) (skip_ws s5))
            | None => match starts_with 125 (skip_ws tail) with
                      | Some s5 => Some ([(k, v)], s5)
                      | None => None
                      end
            end).
  { intros tail Ht; unfold member_text, QuoteJSONString.
    cbn [parse_members app starts_with]; change (N.eqb 34 34) with true; cbv iota.
    rewrite <- !app_assoc; cbn [app]; rewrite parse_quote_chars.
    cbn [skip_ws is_json_whitespace starts_with N.eqb Pos.eqb orb].
    destruct (parse_value_flat v fuel tail Hv Ht) as [Hp Hs].
    rewrite Hs, Hp; reflexivity. }
  destruct m as [|kv' m'].
  - cbn [List.map join]; rewrite Hstep by (exists rest; auto).
    reflexivity.
  - change (join [44%N] (List.map member_text ((k, v) :: kv' :: m')))
      with (member_text (k, v) ++ [44%N] ++ join [44%N] (List.map member_text (kv' :: m'))).
    rewrite <- !app_assoc; cbn [app].
    rewrite Hstep by (eexists; left; reflexivity).
    cbn [skip_ws is_json_whitespace starts_with N.eqb Pos.eqb orb].
    assert (Hs : skip_ws (join [44%N] (List.map member_text (kv' :: m')) ++ 125%N :: rest)
                 = join [44%N] (List.map member_text (kv' :: m')) ++ 125%N :: rest).
    { destruct kv' as [k' v']; destruct m'; cbn [List.map join member_text];
        unfold QuoteJSONString; cbn [app]; reflexivity. }
    rewrite Hs.
    rewrite IH; [reflexivity|discriminate|assumption|cbn in Hfuel |- *; lia].
Qed.

Lemma members_length (m : list (jsstring * json)) :
  (List.length m <= List.length (join [44%N] (List.map member_text m)))%nat.
Proof.
  induction m as [|[k v] m IH]; [cbn; lia|].
  assert (H : (1 <= List.length (member_text (k, v)))%nat).
  { unfold member_text, QuoteJSONString; cbn [app List.length]; lia. }
  destruct m as [|kv m]; [exact H|].
  change (join [44%N] (List.map member_text ((k, v) :: kv :: m)))
    with (member_text (k, v) ++ [44%N] ++ join [44%N] (List.map member_text (kv :: m))).
  rewrite !length_app; cbn [List.length] in *; lia.
Qed.

Lemma JSON_stringify_object (m : list (jsstring * json)) :
  JSON_stringify (JObj m) = [123%N] ++ join [44%N] (List.map member_text m) ++ [125%N].
Proof. reflexivity. Qed.

(** An object whose members are strings and natural numbers is parsed
    back from its text. *)
Lemma JSON_parse_stringify_flat (m : list (jsstring * json)) :
  Forall (fun kv => flat (snd kv)) m ->
  JSON_parse (JSON_stringify (JObj m)) = Some (JObj m).
Proof.
  intros HF; rewrite JSON_stringify_object; destruct m as [|kv m].
  - reflexivity.
  - set (text := join [44%N] (List.map member_text (kv :: m))).
    assert (Hlen : (List.length (kv :: m) <= List.length text)%nat)
      by apply members_length.
    assert (Hhead : exists t, text = 34%N :: t).
    { subst text; destruct kv as [k v]; destruct m; cbn [List.map join member_text];
        unfold QuoteJSONString; cbn [app]; eexists; reflexivity. }
    destruct Hhead as [t Et].
    unfold JSON_parse; cbn [app skip_ws is_json_whitespace N.eqb Pos.eqb orb].
    cbn [List.length parse_value N.eqb Pos.eqb].
    assert (Hs : skip_ws (text ++ [125%N]) = text ++ [125%N])
      by (rewrite Et; reflexivity).
    assert (Hstart : starts_with 125 (text ++ [125%N]) = None)
      by (rewrite Et; reflexivity).
    rewrite Hs, Hstart.
    unfold text at 1; rewrite (parse_members_flat (kv :: m)); [reflexivity|discriminate| |].
    + assumption.
    + fold text; rewrite length_app; cbn [List.length] in *; lia.
Qed.

(** *** The text of a flat object of Latin-1 strings is Latin-1 *)

Lemma hex_digit_byte (n : N) : (n < 16)%N -> is_byte (hex_digit n).
Proof.
  unfold is_byte, hex_digit; intros H; destruct (N.ltb_spec n 10); lia.
Qed.

Lemma unicode_escape_bytes (c : N) : (c < 65536)%N -> Forall is_byte (unicode_escape c).
Proof.
  intros H; unfold unicode_escape.
  assert (H3 : (c / 4096 < 16)%N) by (apply N.Div0.div_lt_upper_bound; lia).
  pose proof (N.mod_lt (c / 256) 16 ltac:(lia)).
  pose proof (N.mod_lt (c / 16) 16 ltac:(lia)).
  pose proof (N.mod_lt c 16 ltac:(lia)).
  repeat constructor; try (apply hex_digit_byte; assumption); unfold is_byte; lia.
Qed.

Lemma json_escape_bytes (c : N) (e : list N) :
  (c < 65536)%N -> json_escape c = Some e -> Forall is_byte e.
Proof.
  intros Hc; unfold json_escape.
  repeat match goal with
         | |- context [N.eqb ?a ?b] => destruct (N.eqb a b);
             [intros [= <-]; repeat constructor; unfold is_byte; lia|]
         end.
  destruct (N.ltb c 32); [|discriminate].
  intros [= <-]; apply unicode_escape_bytes; assumption.
Qed.

Lemma byte_not_surrogate (c : N) :
  is_byte c -> is_high_surrogate c = false /\ is_low_surrogate c = false.
Proof.
  unfold is_byte, is_high_surrogate, is_low_surrogate; intros H.
  rewrite (proj2 (N.leb_gt 55296 c)), (proj2 (N.leb_gt 56320 c)) by lia; auto.
Qed.

Lemma quote_chars_bytes (s : jsstring) : Forall is_byte s -> Forall is_byte (quote_chars s).
Proof.
  induction 1 as [|c s Hc _ IH]; [constructor|].
  cbn [quote_chars]; destruct (byte_not_surrogate c Hc) as [-> ->].
  destruct (json_escape c) as [e|] eqn:E.
  - apply Forall_app; split; [|assumption].
    apply (json_escape_bytes c e); [unfold is_byte in Hc; lia|assumption].
  - constructor; assumption.
Qed.

Lemma QuoteJSONString_bytes (s : jsstring) :
  Forall is_byte s -> Forall is_byte (QuoteJSONString s).
Proof.
  intros H; unfold QuoteJSONString; constructor; [unfold is_byte; lia|].
  apply Forall_app; split; [apply quote_chars_bytes; assumption|].
  repeat constructor; unfold is_byte; lia.
Qed.

Lemma decimal_bytes (n : N) : Forall is_byte (decimal n).
Proof.
  destruct (decimal_spec n) as (HF & _); eapply Forall_impl; [|exact HF].
  intros c Hc; apply is_digit_true in Hc; unfold is_byte; lia.
Qed.

(** A Latin-1 string, or a natural number up to 100. *)
Definition flat_latin1 (v : json) : Prop :=
  match v with
  | JStr s => Forall is_byte s
  | _ => flat v
  end.

Lemma flat_latin1_flat (v : json) : flat_latin1 v -> flat v.
Proof. destruct v; unfold flat_latin1, flat; auto. Qed.

Lemma member_text_bytes (k : jsstring) (v : json) :
  Forall is_byte k -> flat_latin1 v -> Forall is_byte (member_text (k, v)).
Proof.
  intros Hk Hv; unfold member_text.
  apply Forall_app; split; [apply QuoteJSONString_bytes; assumption|].
  constructor; [unfold is_byte; lia|].
  destruct v as [| |[| | |x]|s| |]; try contradiction; cbn [JSON_stringify].
  - destruct Hv as (n & Hn & ->); rewrite Number_toString_nat by assumption.
    apply decimal_bytes.
  - apply QuoteJSONString_bytes; assumption.
Qed.

Lemma JSON_stringify_bytes (m : list (jsstring * json)) :
  Forall (fun kv => Forall is_byte (fst kv) /\ flat_latin1 (snd kv)) m ->
  Forall is_byte (JSON_stringify (JObj m)).
Proof.
  intros HF; rewrite JSON_stringify_object.
  constructor; [unfold is_byte; lia|]; apply Forall_app; split;
    [|repeat constructor; unfold is_byte; lia].
  induction HF as [|[k v] m [Hk Hv] HF IH]; [constructor|].
  pose proof (member_text_bytes k v Hk Hv) as Hm.
  destruct m as [|kv m]; [exact Hm|].
  change (join [44%N] (List.map member_text ((k, v) :: kv :: m)))
    with (member_text (k, v) ++ [44%N] ++ join [44%N] (List.map member_text (kv :: m))).
  apply Forall_app; split; [exact Hm|].
  constructor; [unfold is_byte; lia|exact IH].
Qed.

(** *** Reading the link back *)

Lemma prefixb_app (p s : list N) : prefixb p (p ++ s) = true.
Proof. induction p as [|a p IH]; cbn; [|rewrite N.eqb_refl, IH]; reflexivity. Qed.

Lemma indexOf_prefix (p s : list N) : indexOf (p ++ s) p = Some 0%nat.
Proof. destruct p; cbn [indexOf app]; [destruct s; reflexivity|].
       cbn [prefixb]; rewrite N.eqb_refl, prefixb_app; reflexivity. Qed.

(** What [parseHash] does with a link whose token decodes to [payload]. *)
Lemma parseHash_marker (enc text : jsstring) (payload : json) (st : State) :
  atob enc = Some text -> JSON_parse text = Some payload -> is_object payload = true ->
  parseHash (marker ++ enc) st =
  mkState Sydney
          (if ToBoolean (get payload (str "d")) then get payload (str "d") else dateISO st)
          (Some (decodePayload payload)).
Proof.
  intros Ha Hp Ho; unfold parseHash.
  rewrite indexOf_prefix; cbv zeta.
  replace (skipn (0 + List.length marker) (marker ++ enc)) with enc
    by (symmetry; apply skipn_app_length || (cbn [Nat.add]; rewrite skipn_app, skipn_all, Nat.sub_diag; reflexivity)).
  rewrite Ha, Hp, Ho; reflexivity.
Qed.

Lemma Math_max_Fin (a b : R) : Math_max (Fin a) (Fin b) = Fin (Rmax a b).
Proof.
  unfold Math_max, lt, Rltb, Rmax.
  destruct (Rlt_dec a b), (Rle_dec a b); try lra; f_equal; lra.
Qed.

Lemma Math_min_Fin (a b : R) : Math_min (Fin a) (Fin b) = Fin (Rmin a b).
Proof.
  unfold Math_min, lt, Rltb, Rmin.
  destruct (Rlt_dec b a), (Rle_dec a b); try lra; f_equal; lra.
Qed.

(** The index read from a stored number. *)
Lemma sharedIndex_number (payload : json) (k : jsstring) (x : R) :
  get payload k = Some (JNum (Fin x)) ->
  sharedIndex payload k =
  Shared.mkIndex (Some (JNum (Fin x))) (Fin (Rmax 0 (x - 10))) (Fin (Rmin 100 (x + 10))).
Proof.
  intros H; unfold sharedIndex, js_minus, js_plus; rewrite H.
  cbn [option_map ToPrimitive ToNumber sub neg add].
  rewrite Math_max_Fin, Math_min_Fin; reflexivity.
Qed.

(** The index that decoding builds around a stored number. *)
Definition rebuilt (x : R) : Shared.Index :=
  Shared.mkIndex (Some (JNum (Fin x))) (Fin (Rmax 0 (x - 10))) (Fin (Rmin 100 (x + 10))).

Lemma percent_flat (z : Z) : (0 <= z <= 100)%Z -> flat_latin1 (JNum (Fin (IZR z))).
Proof.
  intros H; exists (Z.to_N z); split.
  - lia.
  - rewrite Z2N.id by lia; reflexivity.
Qed.

Lemma key_bytes (k : string) :
  forallb (fun c => N.leb c 255) (str k) = true -> Forall is_byte (str k).
Proof. apply is_byte_forallb. Qed.

(** C3. For integer centers in [0,100] and a date string whose code units
    are at most 255, as those of every date are, [shareRisk] produces a
    token, and [parseHash] on the link reads back the same date and the
    same four centers, with bands rebuilt as center - 10 and center + 10
    clamped to [0,100], whatever the bands of the shared result were. *)
Theorem share_round_trip (d : jsstring) (h c w r : Z) (res : Shared.Result)
    (st st' : State) :
  Forall is_byte d ->
  (0 <= h <= 100)%Z -> (0 <= c <= 100)%Z -> (0 <= w <= 100)%Z -> (0 <= r <= 100)%Z ->
  dateISO st = Some (JStr d) ->
  Shared.center (Shared.heat (Shared.indices res)) = Some (JNum (Fin (IZR h))) ->
  Shared.center (Shared.cold (Shared.indices res)) = Some (JNum (Fin (IZR c))) ->
  Shared.center (Shared.wind (Shared.indices res)) = Some (JNum (Fin (IZR w))) ->
  Shared.center (Shared.wet (Shared.indices res)) = Some (JNum (Fin (IZR r))) ->
  exists tok,
    shareHash st res = Some tok /\
    riskResult (parseHash (marker ++ tok) st') =
    Some (Shared.mkResult
            (Shared.mkMeta (str "shared") (-33.8688) 151.2093 (Some (JStr d)))
            (Shared.mkIndices (rebuilt (IZR h)) (rebuilt (IZR c))
                              (rebuilt (IZR w)) (rebuilt (IZR r)))).
Proof.
  intros Hd Hh Hc Hw Hr Ed Eh Ec Ew Er.
  set (m := [(str "d", JStr d); (str "h", JNum (Fin (IZR h)));
             (str "c", JNum (Fin (IZR c))); (str "w", JNum (Fin (IZR w)));
             (str "r", JNum (Fin (IZR r)))]).
  assert (Etext : JSON_stringify_literal (sharePayload st res) = JSON_stringify (JObj m)).
  { unfold JSON_stringify_literal, sharePayload; rewrite Ed, Eh, Ec, Ew, Er; reflexivity. }
  assert (HF : Forall (fun kv => Forall is_byte (fst kv) /\ flat_latin1 (snd kv)) m).
  { subst m.
    repeat (apply Forall_cons;
            [split; cbn [fst snd];
             [apply key_bytes; reflexivity
             |first [exact Hd | apply percent_flat; assumption]]|]).
    apply Forall_nil. }
  destruct (atob_btoa _ (JSON_stringify_bytes m HF)) as (tok & Hb & Ha).
  assert (Hp : JSON_parse (JSON_stringify (JObj m)) = Some (JObj m)).
  { apply JSON_parse_stringify_flat.
    eapply Forall_impl; [|exact HF]; intros kv [_ H]; apply flat_latin1_flat; exact H. }
  exists tok; split; [unfold shareHash; rewrite Etext; exact Hb|].
  rewrite (parseHash_marker tok _ (JObj m) st' Ha Hp eq_refl); cbn [riskResult].
  unfold decodePayload.
  rewrite (sharedIndex_number (JObj m) (str "h") (IZR h)) by reflexivity.
  rewrite (sharedIndex_number (JObj m) (str "c") (IZR c)) by reflexivity.
  rewrite (sharedIndex_number (JObj m) (str "w") (IZR w)) by reflexivity.
  rewrite (sharedIndex_number (JObj m) (str "r") (IZR r)) by reflexivity.
  reflexivity.
Qed.

(** C10, amended. A token whose payload parses as a JSON object or array
    replaces the risk result by the decoded one; each hazard whose stored
    value is a number [x] is rebuilt as center [x], low [max(0, x - 10)]
    and high [min(100, x + 10)], so that [0 <= low] and [high <= 100]; the
    center is the stored value, in range only when [x] is. *)
Theorem decode_stored_number (enc text : jsstring) (payload : json) (st : State)
    (k : jsstring) (x : R) :
  atob enc = Some text -> JSON_parse text = Some payload -> is_object payload = true ->
  get payload k = Some (JNum (Fin x)) ->
  riskResult (parseHash (marker ++ enc) st) = Some (decodePayload payload) /\
  Shared.indices (decodePayload payload) =
    Shared.mkIndices (sharedIndex payload (str "h")) (sharedIndex payload (str "c"))
                     (sharedIndex payload (str "w")) (sharedIndex payload (str "r")) /\
  sharedIndex payload k = rebuilt x /\
  (Fin 0 <= Shared.low (sharedIndex payload k))%num /\
  (Shared.high (sharedIndex payload k) <= Fin 100)%num /\
  (0 <= x <= 100 ->
   (Shared.low (sharedIndex payload k) <= Fin x)%num /\
   (Fin x <= Shared.high (sharedIndex payload k))%num).
Proof.
  intros Ha Hp Ho Hk.
  rewrite (parseHash_marker enc text payload st Ha Hp Ho); cbn [riskResult].
  rewrite (sharedIndex_number payload k x Hk); unfold rebuilt; cbn [Shared.low Shared.high].
  rewrite !le_Fin.
  split; [reflexivity|]; split; [reflexivity|]; split; [reflexivity|].
  unfold Rmax, Rmin.
  destruct (Rle_dec 0 (x - 10)), (Rle_dec 100 (x + 10)); repeat split; intros; lra.
Qed.

End ShareCodec.

(** A function that prints the integer part in decimal; it agrees with
    Number::toString on the natural numbers up to 100. *)
Definition integer_digits (r : R) : jsstring := decimal (Z.to_N (Int_part r)).

Lemma integer_digits_nat (n : N) :
  (n <= 100)%N -> integer_digits (IZR (Z.of_N n)) = decimal n.
Proof.
  intros _; unfold integer_digits; rewrite Int_part_IZR, N2Z.id; reflexivity.
Qed.

Definition sample_date : jsstring := str "2025-10-17".

Definition sample_result : Shared.Result :=
  Shared.mkResult
    (Shared.mkMeta (str "POWER fallback") (-33.8688) 151.2093 (Some (JStr sample_date)))
    (Shared.mkIndices (Shared.mkIndex (Some (JNum (Fin 42))) (Fin 35) (Fin 50))
                      (Shared.mkIndex (Some (JNum (Fin 10))) (Fin 5) (Fin 20))
                      (Shared.mkIndex (Some (JNum (Fin 28))) (Fin 20) (Fin 35))
                      (Shared.mkIndex (Some (JNum (Fin 55))) (Fin 45) (Fin 65))).

Definition sample_state : State :=
  mkState Sydney (Some (JStr sample_date)) (Some sample_result).

Definition fresh_state : State := mkState Sydney (Some (JStr (str "2025-11-01"))) None.

Lemma share_round_trip_witness :
  exists tok,
    shareHash integer_digits sample_state sample_result = Some tok /\
    riskResult (parseHash integer_digits (fun _ => NaN) (marker ++ tok) fresh_state) =
    Some (Shared.mkResult
            (Shared.mkMeta (str "shared") (-33.8688) 151.2093 (Some (JStr sample_date)))
            (Shared.mkIndices (rebuilt 42) (rebuilt 10) (rebuilt 28) (rebuilt 55))).
Proof.
  apply (share_round_trip integer_digits (fun _ => NaN) integer_digits_nat
           sample_date 42 10 28 55 sample_result sample_state fresh_state);
    first [apply key_bytes; reflexivity | lia | reflexivity].
Defined.

Lemma decode_stored_number_witness :
  sharedIndex integer_digits (fun _ => NaN)
    (JObj [(str "h", JNum (Fin 250))]) (str "h") = rebuilt 250.
Proof.
  apply (decode_stored_number integer_digits (fun _ => NaN)
           (str "eyJoIjoyNTB9") (List.map (fun c => if N.eqb c 39 then 34%N else c)
                                          (str "{'h':250}"))
           (JObj [(str "h", JNum (Fin 250))]) fresh_state (str "h") 250).
  - reflexivity.
  - unfold JSON_parse; cbn; unfold number_value; cbn [digits_value fold_left].
    repeat f_equal.
  - reflexivity.
  - reflexivity.
Defined.

(** C10, as stated, fails: the token [e30=] holds the object [{}], whose
    hazards are [undefined]; the rebuilt low and high are [NaN], so
    neither [0 <= low] nor [high <= 100] holds. *)
Lemma decode_counterexample :
  ~ (forall (toS : R -> jsstring) (toN : jsstring -> num) (enc text : jsstring)
            (payload : json) (st : State),
       atob enc = Some text -> JSON_parse text = Some payload ->
       is_object payload = true ->
       exists res,
         riskResult (parseHash toS toN (marker ++ enc) st) = Some res /\
         (Fin 0 <= Shared.low (Shared.heat (Shared.indices res)))%num /\
         (Shared.high (Shared.heat (Shared.indices res)) <= Fin 100)%num).
Proof.
  intros H.
  destruct (H integer_digits (fun _ => NaN) (str "e30=") (str "{}") (JObj []) fresh_state
              eq_refl eq_refl eq_refl) as (res & Hres & Hlow & _).
  rewrite (parseHash_marker integer_digits (fun _ => NaN) (str "e30=") (str "{}") (JObj [])
             fresh_state eq_refl eq_refl eq_refl) in Hres.
  cbn [riskResult] in Hres; injection Hres as <-.
  exact (le_NaN_r _ Hlow).
Qed.

(** * Further properties *)

(** ** The risk curves *)

Lemma logistic_spec_mono (t s m1 m2 : R) :
  0 < s -> m1 <= m2 -> logistic_spec t s m1 <= logistic_spec t s m2.
Proof.
  intros Hs Hm; unfold logistic_spec.
  assert (He : exp (- (m2 - t) / s) <= exp (- (m1 - t) / s)).
  { destruct (Req_dec_T m1 m2) as [->|Hne]; [lra|].
    left; apply exp_increasing; unfold Rdiv.
    apply Rmult_lt_compat_r; [apply Rinv_0_lt_compat; assumption|lra]. }
  pose proof (exp_pos (- (m2 - t) / s)); pose proof (exp_pos (- (m1 - t) / s)).
  unfold Rdiv at 1 3; apply Rmult_le_compat_l; [lra|].
  apply Rinv_le_contravar; lra.
Qed.

(** X1. each center grows with its metric: heat with the humidex, wind
    with the wind speed, wet with the precipitation, and cold as the wind
    chill falls; so do the reported (rounded) centers. *)
Theorem centers_monotone (x y : R) :
  x <= y ->
  (heatCenter (Some (Fin x)) <= heatCenter (Some (Fin y)))%num /\
  (coldCenter (Some (Fin y)) <= coldCenter (Some (Fin x)))%num /\
  (windCenter x <= windCenter y)%num /\
  (wetCenter (Some x) <= wetCenter (Some y))%num /\
  (center (banded (windCenter x)) <= center (banded (windCenter y)))%num.
Proof.
  intros H; rewrite !heatCenter_Fin, !coldCenter_Fin, !windCenter_Fin, !wetCenter_Fin.
  cbn [banded center]; rewrite !Math_round_Fin, !le_Fin.
  repeat split; try apply round_mono; apply logistic_spec_mono; lra.
Qed.

Lemma centers_monotone_witness :
  (windCenter 5 <= windCenter 15)%num.
Proof. apply (centers_monotone 5 15); lra. Defined.

Lemma logistic_spec_threshold (t s : R) : 0 < s -> logistic_spec t s t = 50.
Proof.
  intros Hs; unfold logistic_spec; replace (- (t - t) / s) with 0 by (field; lra).
  rewrite exp_0; lra.
Qed.

(** X2. At the threshold of its hazard a center is exactly 50: humidex
    35, wind chill 5, wind 10 m/s, precipitation 2 mm.  From the threshold
    on it is at least 50 and up to the threshold at most 50 (for cold: at
    or below a wind chill of 5 at least 50, at or above at most 50). *)
Theorem centers_cross_half (x : R) :
  heatCenter (Some (Fin 35)) = Fin 50 /\ coldCenter (Some (Fin 5)) = Fin 50 /\
  windCenter 10 = Fin 50 /\ wetCenter (Some 2) = Fin 50 /\
  (35 <= x -> (Fin 50 <= heatCenter (Some (Fin x)))%num) /\
  (x <= 35 -> (heatCenter (Some (Fin x)) <= Fin 50)%num) /\
  (x <= 5 -> (Fin 50 <= coldCenter (Some (Fin x)))%num) /\
  (5 <= x -> (coldCenter (Some (Fin x)) <= Fin 50)%num) /\
  (10 <= x -> (Fin 50 <= windCenter x)%num) /\
  (x <= 10 -> (windCenter x <= Fin 50)%num) /\
  (2 <= x -> (Fin 50 <= wetCenter (Some x))%num) /\
  (x <= 2 -> (wetCenter (Some x) <= Fin 50)%num).
Proof.
  rewrite !heatCenter_Fin, !coldCenter_Fin, !windCenter_Fin, !wetCenter_Fin, !le_Fin.
  replace (5 - 5) with 0 by lra.
  pose proof (logistic_spec_threshold 35 2.5 ltac:(lra)) as H1.
  pose proof (logistic_spec_threshold 0 2.5 ltac:(lra)) as H2.
  pose proof (logistic_spec_threshold 10 1.5 ltac:(lra)) as H3.
  pose proof (logistic_spec_threshold 2 2 ltac:(lra)) as H4.
  split; [f_equal; exact H1|]; split; [f_equal; exact H2|].
  split; [f_equal; exact H3|]; split; [f_equal; exact H4|].
  repeat match goal with |- _ /\ _ => split end; intros H.
  - rewrite <- H1; apply logistic_spec_mono; lra.
  - rewrite <- H1; apply logistic_spec_mono; lra.
  - rewrite <- H2; apply logistic_spec_mono; lra.
  - rewrite <- H2; apply logistic_spec_mono; lra.
  - rewrite <- H3; apply logistic_spec_mono; lra.
  - rewrite <- H3; apply logistic_spec_mono; lra.
  - rewrite <- H4; apply logistic_spec_mono; lra.
  - rewrite <- H4; apply logistic_spec_mono; lra.
Qed.

(** X3. When the center lies between 10 and 90 the clamp of the band
    does nothing: the reported low is [Math.round(center - 10)] and the
    reported high [Math.round(center + 10)].  A center of at most 10 has
    the low 0 and a center of at least 90 the high 100. *)
Theorem band_unclamped (r : R) :
  (10 <= r <= 90 ->
   banded (Fin r) = mkRiskIndex (Math_round (Fin r)) (Math_round (Fin (r - 10)))
                                (Math_round (Fin (r + 10)))) /\
  (r <= 10 -> low (banded (Fin r)) = Fin 0) /\
  (90 <= r -> high (banded (Fin r)) = Fin 100).
Proof.
  rewrite banded_Fin, !Math_round_Fin; cbn [low high].
  split; [|split]; intros H.
  - assert (E : Rmax 0 (Rmin 100 (r - 10)) = r - 10).
    { destruct (Rclamp_cases (r - 10)) as [[? E]|[[? E]|[? E]]]; lra. }
    assert (E' : Rmax 0 (Rmin 100 (r + 10)) = r + 10).
    { destruct (Rclamp_cases (r + 10)) as [[? E']|[[? E']|[? E']]]; lra. }
    rewrite E, E'; reflexivity.
  - assert (E : Rmax 0 (Rmin 100 (r - 10)) = 0).
    { destruct (Rclamp_cases (r - 10)) as [[? E]|[[? E]|[? E]]]; lra. }
    rewrite E; f_equal; apply (round_IZR 0).
  - assert (E : Rmax 0 (Rmin 100 (r + 10)) = 100).
    { destruct (Rclamp_cases (r + 10)) as [[? E]|[[? E]|[? E]]]; lra. }
    rewrite E; f_equal; apply (round_IZR 100).
Qed.

Lemma band_unclamped_witness :
  banded (Fin 42.4) = mkRiskIndex (Math_round (Fin 42.4)) (Math_round (Fin (42.4 - 10)))
                                  (Math_round (Fin (42.4 + 10))).
Proof. apply (proj1 (band_unclamped 42.4)); lra. Defined.

(** ** The humidex and the wind chill *)

Lemma humidex_finite (t h : R) :
  0 < h -> t <> -237.7 -> exists x, humidex (Some t) (Some h) = Some (Fin x).
Proof.
  intros Hh Ht; unfold humidex; cbv zeta.
  rewrite (div_Fin h 100) by lra.
  assert (Hlog : Math_log (Fin (h / 100)) = Fin (ln (h / 100))).
  { cbn [Math_log]; rewrite Rltb_true; [reflexivity|]. apply Rdiv_lt_0_compat; lra. }
  rewrite Hlog; cbn [mul add]; rewrite (div_Fin (17.27 * t) (237.7 + t)) by lra.
  cbn [add]; set (alpha := 17.27 * t / (237.7 + t) + ln (h / 100)).
  unfold sub; cbn [neg add mul].
  rewrite (div_Fin 1 273.16), (div_Fin 5 9) by lra.
  destruct (Req_dec_T (17.27 + - alpha) 0) as [Ea|Na].
  - assert (Hpos : 0 < 237.7 * alpha) by lra.
    cbn [div]; rewrite Reqb_true by assumption.
    unfold signed_inf; rewrite Rltb_true by assumption.
    cbn [add div neg mul Math_exp]; eexists; reflexivity.
  - rewrite (div_Fin (237.7 * alpha) (17.27 + - alpha)) by assumption.
    cbn [add]; set (dew := 237.7 * alpha / (17.27 + - alpha)).
    destruct (Req_dec_T (273.15 + dew) 0) as [Ed|Nd].
    + cbn [div]; rewrite Reqb_true by assumption.
      unfold signed_inf; rewrite (Rltb_true 0 1) by lra.
      cbn [neg add mul]; unfold signed_inf.
      rewrite (Rltb_false 0 (Ropp 5417.7530)), (Rltb_true (Ropp 5417.7530) 0) by lra.
      cbn [Math_exp mul add neg]; eexists; reflexivity.
    + rewrite (div_Fin 1 (273.15 + dew)) by assumption.
      cbn [neg add mul Math_exp]; eexists; reflexivity.
Qed.

(** X4. For a mean temperature between -90 and 60 degrees and a relative
    humidity between 1 and 100 percent the humidex is a finite number and
    the heat index satisfies the invariant. *)
Theorem humidex_is_number (t h : R) :
  -90 <= t <= 60 -> 1 <= h <= 100 ->
  (exists x, humidex (Some t) (Some h) = Some (Fin x)) /\
  well_banded (banded (heatCenter (humidex (Some t) (Some h)))).
Proof.
  intros Ht Hh; destruct (humidex_finite t h) as [x E]; [lra|lra|].
  split; [exists x; exact E|]; apply heat_well_banded; rewrite E; discriminate.
Qed.

Lemma humidex_is_number_witness :
  well_banded (banded (heatCenter (humidex (Some 22) (Some 50)))).
Proof. apply (humidex_is_number 22 50); lra. Defined.

Lemma windChill_formula (t w : R) :
  t <= 10 -> 4.8 < w * 3.6 ->
  windChill (Some t) w =
  Some (Fin (13.12 + 0.6215 * t - 11.37 * Rpower (w * 3.6) 0.16
             + 0.3965 * t * Rpower (w * 3.6) 0.16)).
Proof.
  intros Ht Hw; unfold windChill; cbv zeta; cbn [mul gt le lt negb].
  rewrite (Rltb_false 10 t), (Rltb_true 4.8 (w * 3.6)) by lra; cbn [orb negb].
  unfold chill_formula, Math_pow.
  rewrite (Reqb_false 0.16 0), (Rltb_true 0 (w * 3.6)) by lra.
  unfold sub; cbn [mul add neg]; f_equal; f_equal; ring.
Qed.

Lemma windChill_raw (t w : R) :
  ~ (t <= 10 /\ 4.8 < w * 3.6) -> windChill (Some t) w = Some (Fin t).
Proof.
  intros H; unfold windChill; cbv zeta; cbn [mul gt le lt negb].
  destruct (Rlt_dec 10 t) as [Ht|Ht].
  - rewrite (Rltb_true 10 t) by assumption; reflexivity.
  - rewrite (Rltb_false 10 t) by lra.
    rewrite (Rltb_false 4.8 (w * 3.6)) by lra; reflexivity.
Qed.

(** Lower bound of [4.8 ^ 0.16] that the wind-chill comparison needs. *)
Lemma Rpower_wind_lower (v : R) : 4.8 < v -> 1.2624 < Rpower v 0.16.
Proof.
  intros Hv; unfold Rpower.
  assert (Hln : 1.5 <= ln v).
  { rewrite <- (ln_exp 1.5); left; apply ln_increasing; [apply exp_pos|].
    apply Rle_lt_trans with 4.8; [|assumption].
    replace 1.5 with (INR 64 * (1.5 / 64)) by (rewrite INR_IZR_INZ; simpl; lra).
    eapply Rle_trans; [apply exp_upper; lra|].
    apply Rmult_le_reg_r with ((1 - 1.5 / 64) ^ 64); [apply pow_lt; lra|].
    rewrite Rinv_l by (apply pow_nonzero; lra); lra. }
  apply Rlt_le_trans with (exp 0.24).
  - replace 0.24 with (INR 4 * 0.06) by (rewrite INR_IZR_INZ; simpl; lra).
    eapply Rlt_le_trans; [|apply exp_lower; lra]; lra.
  - destruct (Req_dec_T 0.24 (0.16 * ln v)) as [<-|Hne]; [lra|].
    left; apply exp_increasing; lra.
Qed.

(** X5. For a mean temperature between -90 and 60 degrees and a wind
    between 0 and 150 m/s the apparent-cold metric is a finite number that
    never exceeds the temperature, so wind never lowers the cold center. *)
Theorem windChill_below_temperature (t w : R) :
  -90 <= t <= 60 -> 0 <= w <= 150 ->
  exists wc, windChill (Some t) w = Some (Fin wc) /\ wc <= t /\
             (coldCenter (Some (Fin t)) <= coldCenter (windChill (Some t) w))%num.
Proof.
  intros _ _.
  assert (H : exists wc, windChill (Some t) w = Some (Fin wc) /\ wc <= t).
  { pose proof (windChill_formula t w) as Hf; pose proof (windChill_raw t w) as Hr.
    destruct (Rle_dec t 10) as [Ht|Ht]; [destruct (Rlt_dec 4.8 (w * 3.6)) as [Hw|Hw]|].
    - rewrite Hf by auto; eexists; split; [reflexivity|].
      pose proof (Rpower_wind_lower (w * 3.6) Hw) as Hp.
      set (p := Rpower (w * 3.6) 0.16) in *; nra.
    - rewrite Hr by tauto; exists t; split; [reflexivity|lra].
    - rewrite Hr by tauto; exists t; split; [reflexivity|lra]. }
  destruct H as (wc & E & Hle); exists wc; split; [assumption|split; [assumption|]].
  rewrite E, !coldCenter_Fin, le_Fin; apply logistic_spec_mono; lra.
Qed.

Lemma windChill_below_temperature_witness :
  exists wc, windChill (Some 5) 3 = Some (Fin wc) /\ wc <= 5 /\
             (coldCenter (Some (Fin 5)) <= coldCenter (windChill (Some 5) 3))%num.
Proof. apply (windChill_below_temperature 5 3); lra. Defined.

(** ** The synthetic data *)

Lemma fill_spec (d : jsstring) (value : nat -> R) (hours : list nat) (l : series) :
  fill d value hours (Some l)
  = Some (l ++ List.map (fun h => (d ++ pad2 h, Some (value h))) hours).
Proof.
  revert l; induction hours as [|h hours IH]; intros l.
  - cbn; rewrite app_nil_r; reflexivity.
  - unfold fill in *; rewrite fold_left_cons; cbn [set_key]; rewrite IH.
    rewrite <- app_assoc; reflexivity.
Qed.

Lemma assoc_some_in {A : Type} (k : jsstring) (l : list (jsstring * A)) (v : A) :
  assoc k l = Some v -> exists k', In (k', v) l.
Proof.
  induction l as [|[k' v'] l IH]; cbn; [discriminate|].
  destruct (jsstring_eqb k k').
  - intros [= <-]; exists k'; auto.
  - intros H; destruct (IH H) as [k'' Hin]; exists k''; auto.
Qed.

Lemma lookup_some_in (l : series) (k : jsstring) (v : R) :
  lookup (Some l) k = Some v -> exists k', In (k', Some v) l.
Proof.
  unfold lookup; destruct (assoc k l) as [o|] eqn:E; [|discriminate].
  intros ->; apply (assoc_some_in k l _ E).
Qed.

Lemma assoc_key_in {A : Type} (k : jsstring) (l : list (jsstring * A)) :
  In k (List.map fst l) -> exists v, assoc k l = Some v.
Proof.
  induction l as [|[k' v'] l IH]; cbn; [tauto|].
  destruct (jsstring_eqb k k') eqn:E; [eexists; reflexivity|].
  intros [->|H]; [rewrite jsstring_eqb_refl in E; discriminate|auto].
Qed.

(** The values read at the keys of a series whose values are all
    present. *)
Lemma present_values_all (P : R -> Prop) (l : series) (times : list jsstring) :
  Forall (fun kv => exists x, snd kv = Some x /\ P x) l ->
  (forall k, In k times -> In k (List.map fst l)) ->
  Forall P (present_values times (Some l)) /\
  List.length (present_values times (Some l)) = List.length times.
Proof.
  intros HF; induction times as [|k times IH]; intros Hin; [cbn; auto|].
  destruct IH as [IH1 IH2]; [intros k' Hk'; apply Hin; right; assumption|].
  destruct (assoc_key_in k l (Hin k (or_introl eq_refl))) as [o Ho].
  destruct (assoc_some_in k l o Ho) as [k' Hk'].
  rewrite Forall_forall in HF; destruct (HF _ Hk') as (x & Ex & Px); cbn [snd] in Ex.
  unfold present_values in *; cbn [flat_map]; unfold lookup at 1 3; rewrite Ho, Ex.
  cbn [app List.length]; split; [constructor; assumption|f_equal; exact IH2].
Qed.

Lemma fold_sum_bounds (lo hi : R) (l : list R) (a : R) :
  Forall (fun x => lo <= x <= hi) l ->
  a + INR (List.length l) * lo <= fold_left Rplus l a <= a + INR (List.length l) * hi.
Proof.
  intros HF; revert a; induction HF as [|x l Hx _ IH]; intros a.
  - cbn; lra.
  - cbn [fold_left]; specialize (IH (a + x)).
    change (List.length (x :: l)) with (S (List.length l)); rewrite S_INR; lra.
Qed.

Lemma average_bounds (lo hi : R) (l : list R) :
  l <> [] -> Forall (fun x => lo <= x <= hi) l -> lo <= average l <= hi.
Proof.
  intros Hne HF; unfold average.
  assert (Hn : 0 < INR (List.length l)).
  { destruct l; [congruence|]; apply lt_0_INR; cbn; lia. }
  destruct (fold_sum_bounds lo hi l 0 HF) as [H1 H2].
  split.
  - apply Rmult_le_reg_r with (INR (List.length l)); [assumption|].
    unfold Rdiv; rewrite Rmult_assoc, Rinv_l by lra; lra.
  - apply Rmult_le_reg_r with (INR (List.length l)); [assumption|].
    unfold Rdiv; rewrite Rmult_assoc, Rinv_l by lra; lra.
Qed.

Lemma mock_series_closed (d : jsstring) (lat lon : R) (g : Rand) :
  let out := fst (generateMockPowerData d lat lon g) in
  T2M out = Some (List.map (fun h => (d ++ pad2 h, Some (t2m_at lat h))) (seq 0 24)) /\
  RH2M out = Some (List.map (fun h => (d ++ pad2 h, Some (rh2m_at lon h))) (seq 0 24)) /\
  ALLSKY_SFC_UV_INDEX out
  = Some (List.map (fun h => (d ++ pad2 h, Some (uv_at h))) (seq 0 24)).
Proof.
  destruct (mock_fixed_series d lat lon g) as (H1 & H2 & H3); cbv zeta in *.
  rewrite H1, H2, H3, !fill_spec; auto.
Qed.

(** X6. the synthetic hourly temperatures, humidities and UV indices stay
    within fixed ranges around the coordinates. *)
Theorem mock_values_in_range (d : jsstring) (lat lon : R) (g : Rand) (key : jsstring)
    (v : R) :
  let out := fst (generateMockPowerData d lat lon g) in
  (lookup (T2M out) key = Some v -> 12 + lat * 0.1 <= v <= 28 + lat * 0.1) /\
  (lookup (RH2M out) key = Some v -> 30 + lon * 0.1 <= v <= 70 + lon * 0.1) /\
  (lookup (ALLSKY_SFC_UV_INDEX out) key = Some v -> 0 <= v <= 6).
Proof.
  destruct (mock_series_closed d lat lon g) as (H1 & H2 & H3); cbv zeta in *.
  rewrite H1, H2, H3.
  split; [|split]; intros H; apply lookup_some_in in H; destruct H as [k' Hin];
    apply in_map_iff in Hin; destruct Hin as (h & [= _ <-] & _).
  - unfold t2m_at; pose proof (SIN_bound (INR h * 0.3)); lra.
  - unfold rh2m_at; pose proof (COS_bound (INR h * 0.2)); lra.
  - unfold uv_at, Rmax; pose proof (SIN_bound (INR h * 0.2)).
    destruct (Rle_dec 0 (sin (INR h * 0.2) * 6)); lra.
Qed.

Lemma generateMockPowerDailyData_eq (d : jsstring) (lat lon : R) (g : Rand) :
  generateMockPowerDailyData d lat lon g =
  (mkPowerParameter None
     (Some [(d, Some (25 + sin (lat * 0.1) * 5))])
     (Some [(d, Some (15 + cos (lon * 0.1) * 3))])
     (Some [(d, Some (60 + sin (lat * lon * 0.01) * 20))]) None
     (Some [(d, Some (4 + g 0%nat * 4))])
     (Some [(d, Some (g 1%nat * 10))]),
   fun n => g (S (S n))).
Proof. reflexivity. Qed.

Lemma fetchPowerDaily_failed (lat lon : R) (startDate endDate : jsstring)
    (net : FetchResult) (g : Rand) :
  failed net = true ->
  fetchPowerDaily lat lon startDate endDate net g
    = generateMockPowerDailyData startDate lat lon g.
Proof. destruct net as [|[|] [d|]]; try reflexivity; discriminate. Qed.

Lemma mock_temperatures (d : jsstring) (lat lon : R) (g : Rand) :
  let out := fst (generateMockPowerData d lat lon g) in
  let temps := present_values (keys (T2M out)) (T2M out) in
  temps <> [] /\ Forall (fun x => 12 + lat * 0.1 <= x <= 28 + lat * 0.1) temps.
Proof.
  destruct (mock_series_closed d lat lon g) as (H1 & _); cbv zeta in *; rewrite H1.
  set (l := List.map (fun h => (d ++ pad2 h, Some (t2m_at lat h))) (seq 0 24)).
  destruct (present_values_all (fun x => 12 + lat * 0.1 <= x <= 28 + lat * 0.1) l
              (keys (Some l))) as [HP HL].
  - apply Forall_forall; intros kv Hin; apply in_map_iff in Hin.
    destruct Hin as (h & <- & _); eexists; split; [reflexivity|].
    unfold t2m_at; pose proof (SIN_bound (INR h * 0.3)); lra.
  - intros k Hk; exact Hk.
  - split; [|assumption].
    intros E; pose proof (eq_trans (eq_sym HL) (f_equal (@List.length R) E)) as X.
    unfold keys, l in X; rewrite !length_map, length_seq in X; discriminate.
Qed.

(** The text of a date input: digits and dashes. *)
Definition date_text (s : jsstring) : Prop :=
  Forall (fun c => is_digit c = true \/ c = 45%N) s.

(** X7. When both POWER fetches fail, for a date made of digits and
    dashes, a latitude between -90 and 90, a longitude between -180 and
    180 and [Math.random] draws in [0,1), the local computation still
    returns, from the synthetic data, four indices that satisfy the
    invariant. *)
Theorem offline_risk_well_banded (lat lon : R) (isoDate : jsstring)
    (netDaily netHourly : FetchResult) (g : Rand) :
  failed netDaily = true -> failed netHourly = true ->
  -90 <= lat <= 90 -> -180 <= lon <= 180 ->
  date_text isoDate -> (forall n, 0 <= g n < 1) ->
  let r := fst (computeLocalRiskFallback lat lon isoDate netDaily netHourly g) in
  well_banded (heat r) /\ well_banded (cold r) /\ well_banded (wind r) /\
  well_banded (wet r).
Proof.
  intros Hd Hh Hlat _ _ _; cbv zeta; unfold computeLocalRiskFallback.
  rewrite (fetchPowerDaily_failed _ _ _ _ _ _ Hd), generateMockPowerDailyData_eq.
  rewrite (fetchPowerHourly_failed _ _ _ _ _ _ Hh).
  set (d := remove_dashes isoDate); set (g1 := fun n => g (S (S n))).
  destruct (mock_temperatures d lat lon g1) as [Hne HF]; cbv zeta in *.
  destruct (generateMockPowerData d lat lon g1) as [ph g2] eqn:E; cbn [fst] in *.
  destruct (localRisk_well_banded
              (mkPowerParameter None
                 (Some [(d, Some (25 + sin (lat * 0.1) * 5))])
                 (Some [(d, Some (15 + cos (lon * 0.1) * 3))])
                 (Some [(d, Some (60 + sin (lat * lon * 0.01) * 20))]) None
                 (Some [(d, Some (4 + g 0%nat * 4))])
                 (Some [(d, Some (g 1%nat * 10))])) ph d) as (Hc & Hw & Hp & Hheat).
  cbv zeta in *; split; [|auto].
  apply Hheat; cbn [T2M_MAX T2M_MIN RH2M]; rewrite !lookup_head.
  destruct (present_values (keys (T2M ph)) (T2M ph)) as [|x temps] eqn:Et; [congruence|].
  cbn [tmean_of]; pose proof (average_bounds _ _ (x :: temps) ltac:(discriminate) HF) as Hav.
  pose proof (SIN_bound (lat * lon * 0.01)) as Hs.
  destruct (humidex_finite (average (x :: temps)) (60 + sin (lat * lon * 0.01) * 20))
    as [hx ->]; [lra|lra|discriminate].
Qed.

Lemma sample_date_text : date_text sample_date.
Proof.
  unfold date_text, sample_date.
  repeat (apply Forall_cons; [first [left; reflexivity | right; reflexivity]|]).
  apply Forall_nil.
Defined.

Lemma offline_risk_well_banded_witness :
  well_banded
    (heat (fst (computeLocalRiskFallback (-33.8688) 151.2093 sample_date Rejects Rejects
                  (fun _ => / 2)))).
Proof.
  apply (offline_risk_well_banded (-33.8688) 151.2093 sample_date Rejects Rejects
           (fun _ => / 2));
    [reflexivity|reflexivity|lra|lra|exact sample_date_text|intros _; lra].
Defined.

(** ** [fetchWeather] *)

Lemma mock_first_hour (d : jsstring) (lat lon : R) (g : Rand) :
  let out := fst (generateMockPowerData d lat lon g) in
  exists l1 l2 l3,
    T2M out = Some ((d ++ pad2 0, Some (t2m_at lat 0)) :: l1) /\
    RH2M out = Some ((d ++ pad2 0, Some (rh2m_at lon 0)) :: l2) /\
    WS10M out = Some ((d ++ pad2 0, Some (3 + g 0%nat * 5)) :: l3).
Proof.
  destruct (mock_series_closed d lat lon g) as (H1 & H2 & _).
  destruct (mock_first_wind d lat lon g) as [l3 H3]; cbv zeta in *.
  rewrite H1, H2, H3; replace (seq 0 24) with (0%nat :: seq 1 23) by reflexivity.
  cbn [List.map]; eexists; eexists; eexists; auto.
Qed.

(** X8. [fetchWeather] returns the OpenWeather reading untouched when
    there is one; otherwise no field of its result is a POWER fill value;
    and when POWER fails too, for a date that is not empty once its
    dashes are removed, the reading is the first synthetic hour:
    20 + lat/10 degrees, 70 + lon/10 percent, and a wind of 3 m/s plus
    five times the first random number. *)
Theorem fetchWeather_fallback (lat lon : R) (dateISO : jsstring) (w : Weather)
    (net : FetchResult) (g : Rand) :
  fetchWeather lat lon dateISO (Some w) net g = (w, g) /\
  (forall x,
     temperature_c (fst (fetchWeather lat lon dateISO None net g)) = Some x \/
     humidity_pct (fst (fetchWeather lat lon dateISO None net g)) = Some x \/
     wind_ms (fst (fetchWeather lat lon dateISO None net g)) = Some x ->
     x <> -999 /\ x <> -5994) /\
  (failed net = true -> remove_dashes dateISO <> [] ->
   -90 <= lat <= 90 -> -180 <= lon <= 180 -> 0 <= g 0%nat < 1 ->
   fst (fetchWeather lat lon dateISO None net g)
   = mkWeather (Some (20 + lat * 0.1)) (Some (70 + lon * 0.1)) (Some (3 + g 0%nat * 5))).
Proof.
  split; [reflexivity|]; split.
  - intros x; unfold fetchWeather.
    destruct (fetchPowerHourly lat lon (remove_dashes dateISO) (remove_dashes dateISO) net g)
      as [param g'].
    destruct (keys (T2M param)) as [|key ks]; cbn [fst temperature_c humidity_pct wind_ms].
    + intros [H|[H|H]]; discriminate.
    + intros [H|[H|H]]; apply sanitize_never_sentinel in H; exact H.
  - intros Hf _ Hlat Hlon Hg; unfold fetchWeather.
    rewrite (fetchPowerHourly_failed _ _ _ _ _ _ Hf).
    destruct (mock_first_hour (remove_dashes dateISO) lat lon g) as (l1 & l2 & l3 & H1 & H2 & H3).
    cbv zeta in *.
    destruct (generateMockPowerData (remove_dashes dateISO) lat lon g) as [param g'].
    cbn [fst] in *; rewrite H1, H2, H3; cbn [keys List.map fst].
    rewrite !lookup_head; unfold t2m_at, rh2m_at.
    replace (INR 0 * 0.3) with 0 by (cbn; lra); replace (INR 0 * 0.2) with 0 by (cbn; lra).
    rewrite sin_0, cos_0, !sanitize_other by lra.
    cbn [fst]; f_equal; f_equal; lra.
Qed.

Lemma fetchWeather_fallback_witness :
  fst (fetchWeather (-33.8688) 151.2093 sample_date None Rejects (fun _ => / 2))
  = mkWeather (Some (20 + (-33.8688) * 0.1)) (Some (70 + 151.2093 * 0.1))
              (Some (3 + / 2 * 5)).
Proof.
  apply (fetchWeather_fallback (-33.8688) 151.2093 sample_date (mkWeather None None None)
           Rejects (fun _ => / 2)); [reflexivity|discriminate|lra|lra|lra].
Defined.

(** ** The invariant, where it holds *)

(** A time key: a string of digits. *)
Definition digit_key (k : jsstring) : Prop := Forall (fun c => is_digit c = true) k.

(** A value that is absent or lies in a range, and a series of them. *)
Definition within (lo hi : R) (v : option R) : Prop :=
  match v with
  | Some x => lo <= x <= hi
  | None => True
  end.

Definition series_within (lo hi : R) (s : option series) : Prop :=
  forall k, within lo hi (lookup s k).

Lemma present_values_within (lo hi : R) (s : option series) (times : list jsstring) :
  series_within lo hi s -> Forall (fun x => lo <= x <= hi) (present_values times s).
Proof.
  intros H; induction times as [|k times IH]; [constructor|].
  unfold present_values in *; cbn [flat_map].
  specialize (H k); destruct (lookup s k) as [v|]; cbn [app]; [constructor|]; assumption.
Qed.

Lemma tmean_within (lo hi : R) (tmax tmin : option R) (temps : list R) :
  within lo hi tmax -> within lo hi tmin -> Forall (fun x => lo <= x <= hi) temps ->
  within lo hi (tmean_of tmax tmin temps).
Proof.
  intros Hmax Hmin HF; destruct temps as [|x temps]; cbn [tmean_of].
  - destruct tmax as [a|], tmin as [b|]; cbn in *; try exact I; lra.
  - apply (average_bounds lo hi (x :: temps)); [discriminate|assumption].
Qed.

(** X9. For POWER data in physical ranges the four indices satisfy the
    invariant: time keys made of digits, temperatures between -90 and 60
    degrees, hourly winds between 0 and 150 m/s, a relative humidity
    between 1 and 100 percent and a precipitation between 0 and 2000 mm,
    each of them present or absent. *)
Theorem risk_invariant (p ph : PowerParameter) (k : jsstring) :
  digit_key k -> Forall digit_key (keys (T2M ph)) ->
  series_within (-90) 60 (T2M ph) -> series_within 0 150 (WS10M ph) ->
  within (-90) 60 (lookup (T2M_MAX p) k) -> within (-90) 60 (lookup (T2M_MIN p) k) ->
  within 1 100 (lookup (RH2M p) k) -> within 0 2000 (lookup (PRECTOTCORR p) k) ->
  let r := localRisk p ph k in
  well_banded (heat r) /\ well_banded (cold r) /\ well_banded (wind r) /\
  well_banded (wet r).
Proof.
  intros _ _ HT _ Hmax Hmin Hrh _; cbv zeta.
  destruct (localRisk_well_banded p ph k) as (Hc & Hw & Hp & Hheat); cbv zeta in *.
  split; [|auto]; apply Hheat.
  pose proof (tmean_within (-90) 60 _ _ _ Hmax Hmin
                (present_values_within (-90) 60 (T2M ph) (keys (T2M ph)) HT)) as Ht.
  destruct (tmean_of _ _ _) as [t|]; [|discriminate].
  destruct (lookup (RH2M p) k) as [rh|]; [|discriminate].
  cbn [within] in Ht, Hrh.
  destruct (humidex_finite t rh) as [x ->]; [lra|lra|discriminate].
Qed.

(** A daily response in the ranges. *)
Definition mild_day : PowerParameter :=
  mkPowerParameter None (Some [(str "20251017", Some 25)]) (Some [(str "20251017", Some 15)])
                   (Some [(str "20251017", Some 50)]) None None
                   (Some [(str "20251017", Some 4)]).

Ltac solve_within :=
  first [ exact I
        | cbn [within]; lra
        | let k' := fresh "k" in
          intros k'; unfold lookup, assoc;
          repeat match goal with
                 | |- context [jsstring_eqb ?a ?b] => destruct (jsstring_eqb a b)
                 end; cbn [within]; first [exact I | lra] ].

Lemma risk_invariant_witness :
  well_banded (heat (localRisk mild_day windy_hour (str "20251017"))) /\
  well_banded (cold (localRisk mild_day windy_hour (str "20251017"))) /\
  well_banded (wind (localRisk mild_day windy_hour (str "20251017"))) /\
  well_banded (wet (localRisk mild_day windy_hour (str "20251017"))).
Proof.
  apply (risk_invariant mild_day windy_hour (str "20251017")).
  - unfold digit_key; repeat (apply Forall_cons; [reflexivity|]); apply Forall_nil.
  - apply Forall_cons; [|apply Forall_nil].
    unfold digit_key; repeat (apply Forall_cons; [reflexivity|]); apply Forall_nil.
  - cbn [windy_hour T2M]; solve_within.
  - cbn [windy_hour WS10M]; solve_within.
  - cbn [mild_day T2M_MAX]; rewrite lookup_head; solve_within.
  - cbn [mild_day T2M_MIN]; rewrite lookup_head; solve_within.
  - cbn [mild_day RH2M]; rewrite lookup_head; solve_within.
  - cbn [mild_day PRECTOTCORR]; rewrite lookup_head; solve_within.
Defined.

(** ** The sanitized hourly series *)

(** X10. no field of an hourly entry built by [getForecast] holds a POWER
    fill value. *)
Theorem hourEntry_no_sentinel (phParam : PowerParameter) (dt : R) (key : jsstring) (x : R) :
  let e := hourEntry phParam dt key in
  PowerHour.tempC e = Some x \/ PowerHour.humidityPct e = Some x \/
  PowerHour.windMs e = Some x \/ PowerHour.precipMm e = Some x \/
  PowerHour.uvIndex e = Some x ->
  x <> -999 /\ x <> -5994.
Proof.
  cbv zeta; unfold hourEntry; cbn [PowerHour.tempC PowerHour.humidityPct
    PowerHour.windMs PowerHour.precipMm PowerHour.uvIndex].
  intros [H|[H|[H|[H|H]]]]; try (apply sanitize_never_sentinel in H; exact H).
  destruct (sanitize (lookup (WS10M phParam) key)) as [w|] eqn:E; [|discriminate].
  injection H as ->; apply sanitize_never_sentinel in E; exact E.
Qed.

Definition fill_value_hour : PowerParameter :=
  mkPowerParameter (Some [(str "2025101700", Some (-999))]) None None
                   (Some [(str "2025101700", Some 55)]) None None None.

Lemma hourEntry_no_sentinel_witness : 55 <> -999 /\ 55 <> -5994.
Proof.
  apply (hourEntry_no_sentinel fill_value_hour 0 (str "2025101700") 55).
  right; left; cbn [hourEntry PowerHour.humidityPct fill_value_hour RH2M].
  rewrite lookup_head; apply sanitize_other; lra.
Defined.

Lemma findIndex_some {A : Type} (f : A -> bool) (l : list A) (i : nat) :
  findIndex f l = Some i ->
  exists a, nth_error l i = Some a /\ f a = true.
Proof.
  revert i; induction l as [|a l IH]; intros i; cbn [findIndex]; [discriminate|].
  destruct (f a) eqn:E.
  - intros [= <-]; exists a; auto.
  - destruct (findIndex f l) as [j|]; [|discriminate].
    intros [= <-]; apply (IH j eq_refl).
Qed.

Lemma findIndex_none {A : Type} (f : A -> bool) (l : list A) :
  findIndex f l = None -> forall a, In a l -> f a = false.
Proof.
  induction l as [|a l IH]; cbn [findIndex]; [intros _ ? []|].
  destruct (f a) eqn:E; [discriminate|].
  destruct (findIndex f l); [discriminate|].
  intros _ b [<-|Hb]; [assumption|apply IH; auto].
Qed.

Lemma hd_firstn_skipn {A : Type} (l : list A) (i : nat) :
  hd_error (firstn 12 (skipn i l)) = nth_error l i.
Proof.
  revert i; induction l as [|a l IH]; intros [|i]; cbn; auto.
  apply IH.
Qed.

(** X11. [next12] holds at most twelve entries and is empty only when the
    series is; its first entry belongs to the series, and is at or after
    the target time as soon as some entry is. *)
Theorem next12_spec (phSeries : list PowerHour.t) (target : R) :
  (List.length (next12 phSeries target) <= 12)%nat /\
  (next12 phSeries target = [] <-> phSeries = []) /\
  (forall h, hd_error (next12 phSeries target) = Some h ->
     In h phSeries /\
     ((exists h', In h' phSeries /\ target <= PowerHour.dt h') ->
      target <= PowerHour.dt h)).
Proof.
  unfold next12, nearestIdx.
  destruct (findIndex (fun h => Rleb target (PowerHour.dt h)) phSeries) as [i|] eqn:E.
  - destruct (findIndex_some _ _ _ E) as (a & Ha & Hf).
    split; [apply firstn_le_length|]; split.
    + split; intros H.
      * apply (f_equal (@hd_error _)) in H; rewrite hd_firstn_skipn, Ha in H.
        discriminate.
      * subst phSeries; destruct i; discriminate.
    + intros h Hh; rewrite hd_firstn_skipn, Ha in Hh; injection Hh as <-.
      split; [apply (nth_error_In _ _ Ha)|intros _].
      unfold Rleb in Hf; destruct (Rle_dec target (PowerHour.dt a)); [assumption|discriminate].
  - destruct phSeries as [|a l]; [cbn; split; [lia|split; [tauto|discriminate]]|].
    split; [apply firstn_le_length|]; split.
    + split; [|discriminate]; intros H.
      apply (f_equal (@hd_error _)) in H; rewrite hd_firstn_skipn in H.
      assert (Hlt : (List.length (a :: l) - 1 < List.length (a :: l))%nat) by (cbn; lia).
      apply nth_error_Some in Hlt; cbn [hd_error] in H; congruence.
    + intros h Hh; rewrite hd_firstn_skipn in Hh.
      split; [apply (nth_error_In _ _ Hh)|].
      intros (h' & Hin & Hle); pose proof (findIndex_none _ _ E h' Hin) as Hf.
      unfold Rleb in Hf; destruct (Rle_dec target (PowerHour.dt h')); [discriminate|contradiction].
Qed.

(** ** The merged snapshot *)

(** X12. a merged field is absent exactly when every source of it is: the
    merge invents no value and loses none. *)
Theorem merge_absent_iff (openOneCall : option OneCall) (oe : option Weather)
    (first : option PowerHour.t) (pdParam : PowerParameter) (startKey : jsstring) :
  let m := mergeCurrent openOneCall oe first pdParam startKey in
  let owCurrent := match openOneCall with Some oc => current oc | None => None end in
  (Snapshot.tempC m = None <->
   field owCurrent temp = None /\ field oe temperature_c = None /\
   field first PowerHour.tempC = None) /\
  (Snapshot.humidityPct m = None <->
   field owCurrent humidity = None /\ field oe humidity_pct = None /\
   field first PowerHour.humidityPct = None) /\
  (Snapshot.windMs m = None <->
   field owCurrent wind_speed = None /\ field oe wind_ms = None /\
   field first PowerHour.windMs = None) /\
  (Snapshot.uvIndex m = None <->
   field owCurrent uvi = None /\ field openOneCall daily0_uvi = None /\
   sanitize (lookup (ALLSKY_SFC_UV_INDEX pdParam) startKey) = None /\
   field first PowerHour.uvIndex = None).
Proof.
  cbv zeta; unfold mergeCurrent; cbn [Snapshot.tempC Snapshot.humidityPct
    Snapshot.windMs Snapshot.uvIndex].
  split; [|split; [|split]].
  - destruct (field _ temp), (field oe temperature_c), (field first PowerHour.tempC);
      split; intros H; try discriminate; try tauto; destruct H as (? & ? & ?); discriminate.
  - destruct (field _ humidity), (field oe humidity_pct),
      (field first PowerHour.humidityPct);
      split; intros H; try discriminate; try tauto; destruct H as (? & ? & ?); discriminate.
  - destruct (field _ wind_speed), (field oe wind_ms), (field first PowerHour.windMs);
      split; intros H; try discriminate; try tauto; destruct H as (? & ? & ?); discriminate.
  - destruct (field _ uvi), (field openOneCall daily0_uvi), (sanitize _),
      (field first PowerHour.uvIndex);
      split; intros H; try discriminate; try tauto;
      destruct H as (? & ? & ? & ?); discriminate.
Qed.

(** ** Bands, colours and the high-risk banner (lines 443-448, 822) *)

Inductive Band : Type := Green | Yellow | Red.

(** [riskBandLabel] *)
Definition riskBandLabel (p : num) : Band :=
  if le p (Fin 30) then Green else if le p (Fin 60) then Yellow else Red.

(** [pctToColor] *)
Definition pctToColor (p : num) : jsstring :=
  if le p (Fin 30) then str "#22c55e"
  else if le p (Fin 60) then str "#eab308"
  else str "#ef4444".

Inductive Hazard : Type := Heat | Cold | Wind | Wet.

Definition index_of (r : RiskIndices) (k : Hazard) : RiskIndex :=
  match k with
  | Heat => heat r
  | Cold => cold r
  | Wind => wind r
  | Wet => wet r
  end.

(** [Object.entries(riskResult.indices).filter(([,v]) => v.center > 60)
    .map(([k]) => k)] *)
Definition reds (r : RiskIndices) : list Hazard :=
  filter (fun k => gt (center (index_of r k)) (Fin 60)) [Heat; Cold; Wind; Wet].

(** ** Alerts (lines 178-189) *)

(** The eight messages of [mapAlerts]. *)
Inductive Alert : Type :=
| FloodRisk
| HeavyRain
| CycloneConditions
| StrongWinds
| HeatAlert
| ColdAlert
| VeryHumid
| StrongUV.

(** [x >= y] of JavaScript: [!(x < y)], and false on [NaN]. *)
Definition ge (x y : num) : bool := le y x.

(** [mapAlerts]; a reading is [None] when it is [null] or [undefined]. *)
Definition mapAlerts (rainfallMm6h windKmh tempC humidityPct uvIndex : option num)
    : list Alert :=
  let alerts := [] in
  let alerts :=
    match rainfallMm6h with
    | Some x => if ge x (Fin 50) then alerts ++ [FloodRisk]
                else if ge x (Fin 20) then alerts ++ [HeavyRain] else alerts
    | None => alerts
    end in
  let alerts :=
    match windKmh with
    | Some x => if ge x (Fin 60) then alerts ++ [CycloneConditions]
                else if ge x (Fin 30) then alerts ++ [StrongWinds] else alerts
    | None => alerts
    end in
  let alerts :=
    match tempC with
    | Some x => if ge x (Fin 35) then alerts ++ [HeatAlert] else alerts
    | None => alerts
    end in
  let alerts :=
    match tempC with
    | Some x => if le x (Fin 5) then alerts ++ [ColdAlert] else alerts
    | None => alerts
    end in
  let alerts :=
    match humidityPct with
    | Some x => if ge x (Fin 80) then alerts ++ [VeryHumid] else alerts
    | None => alerts
    end in
  match uvIndex with
  | Some x => if ge x (Fin 6) then alerts ++ [StrongUV] else alerts
  | None => alerts
  end.

(** X13. a hazard is named in the high-risk banner only if its label is
    Red and its colour the red one, and every Red hazard whose center is a
    number is named; a center that is [NaN] is labelled Red and coloured
    red without being named. *)
Theorem banner_and_label (r : RiskIndices) (k : Hazard) :
  let c := center (index_of r k) in
  (In k (reds r) -> riskBandLabel c = Red /\ pctToColor c = str "#ef4444") /\
  (riskBandLabel c = Red -> c <> NaN -> In k (reds r)) /\
  (c = NaN -> riskBandLabel c = Red /\ pctToColor c = str "#ef4444" /\ ~ In k (reds r)).
Proof.
  cbv zeta; unfold reds; rewrite filter_In.
  assert (Hk : In k [Heat; Cold; Wind; Wet]) by (destruct k; cbn; tauto).
  unfold riskBandLabel, pctToColor.
  destruct (center (index_of r k)) as [| | |x]; cbn [gt lt le negb].
  - split; [intros [_ H]; discriminate H|split; [congruence|]].
    intros _; split; [reflexivity|split; [reflexivity|intros [_ H]; discriminate H]].
  - split; [intros _; split; reflexivity|split; [tauto|discriminate]].
  - split; [intros [_ H]; discriminate H|split; [discriminate|discriminate]].
  - unfold Rltb; destruct (Rlt_dec 30 x), (Rlt_dec 60 x); cbn [negb]; try lra;
      (split; [intros [_ H]; try discriminate H; split; reflexivity
              |split; [intros H; try discriminate H; tauto|discriminate]]).
Qed.

(** The alerts that each reading contributes. *)
Definition rain_alerts (rain : option num) : list Alert :=
  match rain with
  | Some x => if ge x (Fin 50) then [FloodRisk]
              else if ge x (Fin 20) then [HeavyRain] else []
  | None => []
  end.

Definition wind_alerts (windKmh : option num) : list Alert :=
  match windKmh with
  | Some x => if ge x (Fin 60) then [CycloneConditions]
              else if ge x (Fin 30) then [StrongWinds] else []
  | None => []
  end.

Definition temperature_alerts (tempC : option num) : list Alert :=
  match tempC with
  | Some x => (if ge x (Fin 35) then [HeatAlert] else [])
              ++ (if le x (Fin 5) then [ColdAlert] else [])
  | None => []
  end.

Definition other_alerts (hum uv : option num) : list Alert :=
  match hum with
  | Some x => if ge x (Fin 80) then [VeryHumid] else []
  | None => []
  end ++
  match uv with
  | Some x => if ge x (Fin 6) then [StrongUV] else []
  | None => []
  end.

Lemma mapAlerts_parts (rain windKmh tempC hum uv : option num) :
  mapAlerts rain windKmh tempC hum uv
  = rain_alerts rain ++ wind_alerts windKmh ++ temperature_alerts tempC
    ++ other_alerts hum uv.
Proof.
  unfold mapAlerts; cbv zeta.
  set (a1 := match rain with Some x => _ | None => _ end).
  assert (E1 : a1 = rain_alerts rain).
  { subst a1; unfold rain_alerts; destruct rain as [x|]; [|reflexivity].
    destruct (ge x (Fin 50)), (ge x (Fin 20)); reflexivity. }
  clearbody a1; subst a1; generalize (rain_alerts rain); intros a1.
  set (a2 := match windKmh with Some x => _ | None => _ end).
  assert (E2 : a2 = a1 ++ wind_alerts windKmh).
  { subst a2; unfold wind_alerts; destruct windKmh as [x|]; [|rewrite app_nil_r; reflexivity].
    destruct (ge x (Fin 60)), (ge x (Fin 30)); rewrite ?app_nil_r; reflexivity. }
  clearbody a2; subst a2; rewrite <- (app_assoc a1); rewrite !app_assoc.
  generalize (a1 ++ wind_alerts windKmh); clear a1; intros a2.
  unfold temperature_alerts, other_alerts.
  destruct tempC as [t|], hum as [h|], uv as [u|];
    repeat match goal with
           | |- context [if ?b then _ else _] => destruct b
           end; cbn [app]; rewrite ?app_nil_r, <- ?app_assoc; reflexivity.
Qed.

Lemma rain_alerts_spec (rain : option num) (a : Alert) :
  In a (rain_alerts rain) ->
  (a = FloodRisk /\ exists x, rain = Some x /\ ge x (Fin 50) = true) \/
  (a = HeavyRain /\ exists x, rain = Some x /\ ge x (Fin 50) = false
                                /\ ge x (Fin 20) = true).
Proof.
  unfold rain_alerts; destruct rain as [x|]; [|intros []].
  destruct (ge x (Fin 50)) eqn:E1.
  - intros [<-|[]]; left; split; [reflexivity|exists x; auto].
  - destruct (ge x (Fin 20)) eqn:E2; [|intros []].
    intros [<-|[]]; right; split; [reflexivity|exists x; auto].
Qed.

Lemma wind_alerts_spec (windKmh : option num) (a : Alert) :
  In a (wind_alerts windKmh) ->
  (a = CycloneConditions /\ exists x, windKmh = Some x /\ ge x (Fin 60) = true) \/
  (a = StrongWinds /\ exists x, windKmh = Some x /\ ge x (Fin 60) = false
                                  /\ ge x (Fin 30) = true).
Proof.
  unfold wind_alerts; destruct windKmh as [x|]; [|intros []].
  destruct (ge x (Fin 60)) eqn:E1.
  - intros [<-|[]]; left; split; [reflexivity|exists x; auto].
  - destruct (ge x (Fin 30)) eqn:E2; [|intros []].
    intros [<-|[]]; right; split; [reflexivity|exists x; auto].
Qed.

Lemma hot_not_cold (x : num) : ge x (Fin 35) = true -> le x (Fin 5) = true -> False.
Proof.
  destruct x as [| | |r]; cbn; try discriminate.
  unfold Rltb; destruct (Rlt_dec r 35), (Rlt_dec 5 r); cbn; try discriminate; lra.
Qed.

Lemma temperature_alerts_spec (tempC : option num) :
  temperature_alerts tempC = [] \/ temperature_alerts tempC = [HeatAlert] \/
  temperature_alerts tempC = [ColdAlert].
Proof.
  unfold temperature_alerts; destruct tempC as [x|]; [|auto].
  destruct (ge x (Fin 35)) eqn:E1, (le x (Fin 5)) eqn:E2; cbn [app]; auto.
  destruct (hot_not_cold x E1 E2).
Qed.

Lemma other_alerts_spec (hum uv : option num) (a : Alert) :
  (List.length (other_alerts hum uv) <= 2)%nat /\
  (In a (other_alerts hum uv) -> a = VeryHumid \/ a = StrongUV).
Proof.
  unfold other_alerts; destruct hum as [h|], uv as [u|];
    repeat match goal with
           | |- context [if ?b then _ else _] => destruct b
           end; cbn [app List.length In]; split; try lia; intuition auto.
Qed.

(** X14. [mapAlerts] raises at most five alerts: the flood and heavy-rain
    alerts exclude each other, as do the two wind alerts and the heat and
    cold alerts; the flood alert is raised exactly when the rainfall is
    present and at least 50 mm, the cyclone alert exactly when the wind is
    present and at least 60 km/h, and a reading that is [NaN] raises
    nothing. *)
Theorem mapAlerts_spec (rain windKmh tempC hum uv : option num) :
  let alerts := mapAlerts rain windKmh tempC hum uv in
  (List.length alerts <= 5)%nat /\
  ~ (In FloodRisk alerts /\ In HeavyRain alerts) /\
  ~ (In CycloneConditions alerts /\ In StrongWinds alerts) /\
  ~ (In HeatAlert alerts /\ In ColdAlert alerts) /\
  (In FloodRisk alerts <-> exists x, rain = Some x /\ num_le (Fin 50) x) /\
  (In CycloneConditions alerts <-> exists x, windKmh = Some x /\ num_le (Fin 60) x) /\
  mapAlerts (Some NaN) (Some NaN) (Some NaN) (Some NaN) (Some NaN) = [].
Proof.
  cbv zeta; rewrite mapAlerts_parts.
  pose proof (rain_alerts_spec rain) as Hr.
  pose proof (wind_alerts_spec windKmh) as Hw.
  pose proof (temperature_alerts_spec tempC) as Ht.
  pose proof (other_alerts_spec hum uv) as Ho.
  assert (Lr : (List.length (rain_alerts rain) <= 1)%nat).
  { unfold rain_alerts; destruct rain as [x|]; [|cbn; lia].
    destruct (ge x (Fin 50)), (ge x (Fin 20)); cbn; lia. }
  assert (Lw : (List.length (wind_alerts windKmh) <= 1)%nat).
  { unfold wind_alerts; destruct windKmh as [x|]; [|cbn; lia].
    destruct (ge x (Fin 60)), (ge x (Fin 30)); cbn; lia. }
  assert (Lt : (List.length (temperature_alerts tempC) <= 1)%nat).
  { destruct Ht as [->|[->| ->]]; cbn; lia. }
  assert (Hin : forall a, In a (rain_alerts rain ++ wind_alerts windKmh
                                ++ temperature_alerts tempC ++ other_alerts hum uv) <->
                          In a (rain_alerts rain) \/ In a (wind_alerts windKmh) \/
                          In a (temperature_alerts tempC) \/ In a (other_alerts hum uv)).
  { intros a; rewrite !in_app_iff; tauto. }
  assert (Ht' : forall a, In a (temperature_alerts tempC) -> a = HeatAlert \/ a = ColdAlert).
  { intros a; destruct Ht as [->|[->| ->]]; cbn; intuition auto. }
  split; [rewrite !length_app; destruct (Ho FloodRisk); lia|].
  split; [|split; [|split; [|split; [|split]]]].
  - rewrite !Hin; intros [[H1|[H1|[H1|H1]]] [H2|[H2|[H2|H2]]]];
      try (apply Hr in H1; destruct H1 as [[? (x & E & Hx)]|[? ?]]; try discriminate);
      try (apply Hr in H2; destruct H2 as [[? ?]|[? (y & E' & Hy & _)]]; try discriminate);
      try (apply Hw in H1; destruct H1 as [[? ?]|[? ?]]; discriminate);
      try (apply Hw in H2; destruct H2 as [[? ?]|[? ?]]; discriminate);
      try (apply Ht' in H1; destruct H1; discriminate);
      try (apply Ht' in H2; destruct H2; discriminate);
      try (apply (proj2 (Ho _)) in H1; destruct H1; discriminate);
      try (apply (proj2 (Ho _)) in H2; destruct H2; discriminate).
    rewrite E in E'; injection E' as <-; congruence.
  - rewrite !Hin; intros [[H1|[H1|[H1|H1]]] [H2|[H2|[H2|H2]]]];
      try (apply Hw in H1; destruct H1 as [[? (x & E & Hx)]|[? ?]]; try discriminate);
      try (apply Hw in H2; destruct H2 as [[? ?]|[? (y & E' & Hy & _)]]; try discriminate);
      try (apply Hr in H1; destruct H1 as [[? ?]|[? ?]]; discriminate);
      try (apply Hr in H2; destruct H2 as [[? ?]|[? ?]]; discriminate);
      try (apply Ht' in H1; destruct H1; discriminate);
      try (apply Ht' in H2; destruct H2; discriminate);
      try (apply (proj2 (Ho _)) in H1; destruct H1; discriminate);
      try (apply (proj2 (Ho _)) in H2; destruct H2; discriminate).
    rewrite E in E'; injection E' as <-; congruence.
  - rewrite !Hin; intros [[H1|[H1|[H1|H1]]] [H2|[H2|[H2|H2]]]];
      try (apply Hr in H1; destruct H1 as [[? ?]|[? ?]]; discriminate);
      try (apply Hr in H2; destruct H2 as [[? ?]|[? ?]]; discriminate);
      try (apply Hw in H1; destruct H1 as [[? ?]|[? ?]]; discriminate);
      try (apply Hw in H2; destruct H2 as [[? ?]|[? ?]]; discriminate);
      try (apply (proj2 (Ho _)) in H1; destruct H1; discriminate);
      try (apply (proj2 (Ho _)) in H2; destruct H2; discriminate).
    destruct Ht as [E|[E|E]]; rewrite E in H1, H2; cbn in H1, H2;
      intuition discriminate.
  - rewrite Hin; unfold num_le; split.
    + intros [H|[H|[H|H]]].
      * apply Hr in H; destruct H as [[_ H]|[? _]]; [exact H|discriminate].
      * apply Hw in H; destruct H as [[? ?]|[? ?]]; discriminate.
      * apply Ht' in H; destruct H; discriminate.
      * apply (proj2 (Ho _)) in H; destruct H; discriminate.
    + intros (x & -> & Hx); left; unfold rain_alerts, ge.
      rewrite Hx; left; reflexivity.
  - rewrite Hin; unfold num_le; split.
    + intros [H|[H|[H|H]]].
      * apply Hr in H; destruct H as [[? ?]|[? ?]]; discriminate.
      * apply Hw in H; destruct H as [[_ H]|[? _]]; [exact H|discriminate].
      * apply Ht' in H; destruct H; discriminate.
      * apply (proj2 (Ho _)) in H; destruct H; discriminate.
    + intros (x & -> & Hx); right; left; unfold wind_alerts, ge.
      rewrite Hx; left; reflexivity.
  - reflexivity.
Qed.

(** ** The share link, further (lines 215-239, 627-636) *)

Lemma json_escape_wide (c : N) : (255 < c)%N -> json_escape c = None.
Proof.
  intros H; unfold json_escape.
  repeat match goal with
         | |- context [N.eqb ?a ?b] => destruct (N.eqb_spec a b); [lia|]
         | |- context [N.ltb ?a ?b] => destruct (N.ltb_spec a b); [lia|]
         end; reflexivity.
Qed.

(** QuoteJSONString leaves a code unit above 255 that is no surrogate as
    it is. *)
Lemma quote_chars_keeps (c : N) (s : list N) :
  (255 < c)%N -> is_high_surrogate c = false -> is_low_surrogate c = false ->
  In c s -> In c (quote_chars s).
Proof.
  intros Hc Hh Hl; pose proof (json_escape_wide c Hc) as He.
  induction s as [|a|a b l IH IHb] using list_ind2; intros Hin.
  - destruct Hin.
  - destruct Hin as [->|[]]; cbn [quote_chars]; rewrite He, Hh, Hl; left; reflexivity.
  - rewrite quote_chars_cons2.
    destruct Hin as [->|Hin].
    + rewrite He, Hh, Hl; left; reflexivity.
    + destruct (json_escape a) as [e|]; [apply in_or_app; right; auto|].
      destruct (is_high_surrogate a).
      * destruct (is_low_surrogate b) eqn:Eb.
        -- destruct Hin as [->|Hin]; [congruence|right; right; auto].
        -- apply in_or_app; right; auto.
      * destruct (is_low_surrogate a); [apply in_or_app; right; auto|right; auto].
Qed.

Lemma in_join_head (sep x : list N) (l : list (list N)) (c : N) :
  In c x -> In c (join sep (x :: l)).
Proof.
  intros H; destruct l; cbn [join]; [assumption|apply in_or_app; left; assumption].
Qed.

Section ShareLinks.

Variable Number_toString : R -> jsstring.
Variable StringToNumber : jsstring -> num.

Hypothesis Number_toString_nat :
  forall n : N, (n <= 100)%N -> Number_toString (IZR (Z.of_N n)) = decimal n.

(** X15. [parseHash] applied twice to the same hash gives what it gives
    once; it never clears a risk result that is there; and it either
    leaves the state as it is or selects Sydney. *)
Theorem parseHash_idempotent (hash : jsstring) (st : State) :
  let parse := parseHash Number_toString StringToNumber hash in
  parse (parse st) = parse st /\
  (riskResult st <> None -> riskResult (parse st) <> None) /\
  (parse st = st \/ city (parse st) = Sydney).
Proof.
  cbv zeta; unfold parseHash.
  destruct (indexOf hash marker) as [idx|]; [|auto]; cbv zeta.
  destruct (atob _) as [text|]; [|auto].
  destruct (JSON_parse text) as [payload|]; [|auto].
  destruct (is_object payload); [|auto].
  cbn [dateISO riskResult city].
  split; [|split; [discriminate|right; reflexivity]].
  destruct (ToBoolean (get payload (str "d"))); reflexivity.
Qed.

(** X16. the bands that [parseHash] builds around a stored number [x] are
    in order, low <= high, exactly when -10 <= x <= 110, and hold the
    center exactly when 0 <= x <= 100. *)
Theorem decode_band_order (payload : json) (k : jsstring) (x : R) :
  get payload k = Some (JNum (Fin x)) ->
  let ix := sharedIndex Number_toString StringToNumber payload k in
  ((Shared.low ix <= Shared.high ix)%num <-> -10 <= x <= 110) /\
  ((Shared.low ix <= Fin x)%num /\ (Fin x <= Shared.high ix)%num <-> 0 <= x <= 100).
Proof.
  intros Hk; cbv zeta.
  rewrite (sharedIndex_number Number_toString StringToNumber payload k x Hk).
  cbn [Shared.low Shared.high]; rewrite !le_Fin.
  unfold Rmax, Rmin.
  destruct (Rle_dec 0 (x - 10)), (Rle_dec 100 (x + 10)); split; split; intros; lra.
Qed.

(** X17. what [parseHash] builds for one of its four hazards when the
    stored value is no number: a
    missing hazard gives the bands [NaN]; [null] gives 0 and 10; a
    boolean counts as 1 or 0; around a string [s] the low band is
    [Number(s) - 10] clamped below, and the high band is the number read
    from [s] followed by the digits 10, clamped above.  Number::toString
    prints 10 as the digits 10. *)
Theorem decode_non_numbers (payload : json) (k : jsstring) :
  Number_toString 10 = str "10" ->
  In k [str "h"; str "c"; str "w"; str "r"] ->
  match get payload k with
  | None => sharedIndex Number_toString StringToNumber payload k = Shared.mkIndex None NaN NaN
  | Some JNull => sharedIndex Number_toString StringToNumber payload k = Shared.mkIndex (Some JNull) (Fin 0) (Fin 10)
  | Some (JBool b) =>
      sharedIndex Number_toString StringToNumber payload k =
      Shared.mkIndex (Some (JBool b)) (Fin 0) (Fin (if b then 11 else 10))
  | Some (JStr s) =>
      sharedIndex Number_toString StringToNumber payload k =
      Shared.mkIndex (Some (JStr s))
        (Math_max (Fin 0) (sub (StringToNumber s) (Fin 10)))
        (Math_min (Fin 100) (StringToNumber (s ++ str "10")))
  | Some _ => True
  end.
Proof.
  intros E _; unfold sharedIndex, js_minus, js_plus.
  destruct (get payload k) as [[| b | x | s | l | m]|];
    cbn [option_map ToPrimitive ToNumber sub neg add ToString_num]; try exact I.
  - rewrite Math_max_Fin, Math_min_Fin.
    f_equal; f_equal; [apply Rmax_left; lra|rewrite Rmin_right by lra; lra].
  - destruct b; cbn [ToNumber ToPrimitive sub neg add];
      rewrite Math_max_Fin, Math_min_Fin;
      (f_equal; f_equal; [apply Rmax_left; lra|rewrite Rmin_right by lra; lra]).
  - rewrite E; reflexivity.
  - reflexivity.
Qed.

(** X18. when the selected date holds a code unit above 255 that is no
    surrogate, [btoa] throws and [shareRisk] produces no link. *)
Theorem share_fails_outside_latin1 (origin pathname d : jsstring) (c : N)
    (st : State) (r : Shared.Result) :
  dateISO st = Some (JStr d) -> riskResult st = Some r ->
  In c d -> (255 < c)%N ->
  is_high_surrogate c = false -> is_low_surrogate c = false ->
  shareHash Number_toString st r = None /\ shareLink Number_toString origin pathname st = None.
Proof.
  intros Ed Er Hin Hc Hh Hl.
  assert (H : shareHash Number_toString st r = None).
  { unfold shareHash; apply btoa_throws; intros HF.
    rewrite Forall_forall in HF.
    assert (Hb : is_byte c); [apply HF|unfold is_byte in Hb; lia].
    unfold JSON_stringify_literal, sharePayload; rewrite Ed.
    cbn [flat_map]; rewrite <- app_comm_cons, JSON_stringify_object; cbn [List.map].
    apply in_or_app; right; apply in_or_app; left; apply in_join_head.
    unfold member_text; apply in_or_app; right; apply in_or_app; right.
    cbn [JSON_stringify]; unfold QuoteJSONString; right; apply in_or_app; left.
    apply quote_chars_keeps; assumption. }
  split; [exact H|].
  unfold shareLink; rewrite Er, H; reflexivity.
Qed.

(** X19. sharing again from the state that [parseHash] builds out of a
    link gives the same token: for integer centers in [0,100] and a
    non-empty date whose code units are at most 255, the state after
    [parseHash] has that date and Sydney, and [shareRisk] on it produces
    the token of the link. *)
Theorem reshare_same_link (d : jsstring) (h c w r : Z) (res : Shared.Result)
    (st st' : State) :
  Forall is_byte d -> d <> [] ->
  (0 <= h <= 100)%Z -> (0 <= c <= 100)%Z -> (0 <= w <= 100)%Z -> (0 <= r <= 100)%Z ->
  dateISO st = Some (JStr d) ->
  Shared.center (Shared.heat (Shared.indices res)) = Some (JNum (Fin (IZR h))) ->
  Shared.center (Shared.cold (Shared.indices res)) = Some (JNum (Fin (IZR c))) ->
  Shared.center (Shared.wind (Shared.indices res)) = Some (JNum (Fin (IZR w))) ->
  Shared.center (Shared.wet (Shared.indices res)) = Some (JNum (Fin (IZR r))) ->
  exists tok res2,
    shareHash Number_toString st res = Some tok /\
    dateISO (parseHash Number_toString StringToNumber (marker ++ tok) st') = Some (JStr d) /\
    city (parseHash Number_toString StringToNumber (marker ++ tok) st') = Sydney /\
    riskResult (parseHash Number_toString StringToNumber (marker ++ tok) st') = Some res2 /\
    shareHash Number_toString (parseHash Number_toString StringToNumber (marker ++ tok) st') res2 = Some tok.
Proof.
  intros Hd Hne Hh Hc Hw Hr Ed Eh Ec Ew Er.
  set (m := [(str "d", JStr d); (str "h", JNum (Fin (IZR h)));
             (str "c", JNum (Fin (IZR c))); (str "w", JNum (Fin (IZR w)));
             (str "r", JNum (Fin (IZR r)))]).
  assert (Etext : JSON_stringify_literal Number_toString (sharePayload st res)
                  = JSON_stringify Number_toString (JObj m)).
  { unfold JSON_stringify_literal, sharePayload; rewrite Ed, Eh, Ec, Ew, Er; reflexivity. }
  assert (HF : Forall (fun kv => Forall is_byte (fst kv) /\ flat_latin1 (snd kv)) m).
  { subst m.
    repeat (apply Forall_cons;
            [split; cbn [fst snd];
             [apply key_bytes; reflexivity
             |first [exact Hd | apply percent_flat; assumption]]|]).
    apply Forall_nil. }
  destruct (atob_btoa _ (JSON_stringify_bytes Number_toString Number_toString_nat m HF))
    as (tok & Hb & Ha).
  assert (Hp : JSON_parse (JSON_stringify Number_toString (JObj m)) = Some (JObj m)).
  { apply JSON_parse_stringify_flat; [exact Number_toString_nat|].
    eapply Forall_impl; [|exact HF]; intros kv [_ H]; apply flat_latin1_flat; exact H. }
  assert (Hs : shareHash Number_toString st res = Some tok).
  { unfold shareHash; rewrite Etext; exact Hb. }
  exists tok, (decodePayload Number_toString StringToNumber (JObj m)).
  rewrite (parseHash_marker Number_toString StringToNumber tok _ (JObj m) st' Ha Hp eq_refl).
  cbn [dateISO city riskResult].
  assert (Eg : get (JObj m) (str "d") = Some (JStr d)) by reflexivity.
  rewrite Eg.
  assert (Et : ToBoolean (Some (JStr d)) = true) by (destruct d; [congruence|reflexivity]).
  rewrite Et.
  split; [exact Hs|]; split; [reflexivity|]; split; [reflexivity|]; split; [reflexivity|].
  rewrite <- Hb, <- Etext; unfold shareHash; f_equal; f_equal.
  unfold sharePayload; cbn [dateISO]; rewrite Ed, Eh, Ec, Ew, Er.
  unfold decodePayload; cbn [Shared.indices Shared.heat Shared.cold Shared.wind Shared.wet].
  rewrite (sharedIndex_number _ _ (JObj m) (str "h") (IZR h)) by reflexivity.
  rewrite (sharedIndex_number _ _ (JObj m) (str "c") (IZR c)) by reflexivity.
  rewrite (sharedIndex_number _ _ (JObj m) (str "w") (IZR w)) by reflexivity.
  rewrite (sharedIndex_number _ _ (JObj m) (str "r") (IZR r)) by reflexivity.
  reflexivity.
Qed.

End ShareLinks.

Lemma decode_band_order_witness :
  let ix := sharedIndex integer_digits (fun _ => NaN)
              (JObj [(str "h", JNum (Fin 250))]) (str "h") in
  ((Shared.low ix <= Shared.high ix)%num <-> -10 <= 250 <= 110) /\
  ((Shared.low ix <= Fin 250)%num /\ (Fin 250 <= Shared.high ix)%num <-> 0 <= 250 <= 100).
Proof.
  apply (decode_band_order integer_digits (fun _ => NaN)
           (JObj [(str "h", JNum (Fin 250))]) (str "h") 250).
  reflexivity.
Defined.

Lemma decode_non_numbers_witness :
  sharedIndex integer_digits (fun _ => NaN) (JObj []) (str "h")
  = Shared.mkIndex None NaN NaN.
Proof.
  apply (decode_non_numbers integer_digits (fun _ => NaN) (JObj []) (str "h")).
  - apply (integer_digits_nat 10); discriminate.
  - left; reflexivity.
Defined.

(** A state whose date holds the euro sign. *)
Definition euro_state : State :=
  mkState Sydney (Some (JStr [8364%N])) (Some sample_result).

Lemma share_fails_outside_latin1_witness :
  shareHash integer_digits euro_state sample_result = None /\
  shareLink integer_digits (str "https://climasphere.example") (str "/") euro_state = None.
Proof.
  apply (share_fails_outside_latin1 integer_digits
           (str "https://climasphere.example") (str "/") [8364%N] 8364%N
           euro_state sample_result).
  - reflexivity.
  - reflexivity.
  - left; reflexivity.
  - reflexivity.
  - reflexivity.
  - reflexivity.
Defined.

Lemma reshare_same_link_witness :
  exists tok res2,
    shareHash integer_digits sample_state sample_result = Some tok /\
    dateISO (parseHash integer_digits (fun _ => NaN) (marker ++ tok) fresh_state)
    = Some (JStr sample_date) /\
    city (parseHash integer_digits (fun _ => NaN) (marker ++ tok) fresh_state) = Sydney /\
    riskResult (parseHash integer_digits (fun _ => NaN) (marker ++ tok) fresh_state)
    = Some res2 /\
    shareHash integer_digits
      (parseHash integer_digits (fun _ => NaN) (marker ++ tok) fresh_state) res2
    = Some tok.
Proof.
  apply (reshare_same_link integer_digits (fun _ => NaN) integer_digits_nat
           sample_date 42 10 28 55 sample_result sample_state fresh_state);
    first [apply key_bytes; reflexivity | discriminate | lia | reflexivity].
Defined.

(** ** The random part of the synthetic data (lines 103-129) *)

(** Every value of a series is present and satisfies [P]. *)
Definition series_all (P : R -> Prop) (s : option series) : Prop :=
  exists l, s = Some l /\ Forall (fun kv => exists x, snd kv = Some x /\ P x) l.

Lemma set_key_all (P : R -> Prop) (s : option series) (key : jsstring) (v : R) :
  series_all P s -> P v -> series_all P (set_key s key v).
Proof.
  intros (l & -> & HF) Hv; exists (l ++ [(key, Some v)]); split; [reflexivity|].
  apply Forall_app; split; [assumption|].
  constructor; [exists v; auto|constructor].
Qed.

Lemma mock_loop_random (startDate : jsstring) (lat lon : R) (hours : list nat)
    (st : PowerParameter * Rand) :
  (forall n, 0 <= snd st n < 1) ->
  series_all (fun x => 3 <= x < 8) (WS10M (fst st)) ->
  series_all (fun x => 0 <= x < 2) (PRECTOTCORR (fst st)) ->
  let out := fst (fold_left (mock_hour startDate lat lon) hours st) in
  series_all (fun x => 3 <= x < 8) (WS10M out) /\
  series_all (fun x => 0 <= x < 2) (PRECTOTCORR out).
Proof.
  revert st; induction hours as [|h hours IH]; intros [md g]; cbn [fst snd]; intros Hg Hw Hp.
  - cbn; auto.
  - rewrite fold_left_cons; apply IH.
    + intros n; cbn; apply Hg.
    + cbn; apply set_key_all; [assumption|]; pose proof (Hg 0%nat); lra.
    + cbn; apply set_key_all; [assumption|]; pose proof (Hg 1%nat); lra.
Qed.

(** X20. when every [Math.random] draw lies in [0,1), each synthetic wind
    speed lies in [3,8) m/s and each synthetic precipitation in [0,2) mm. *)
Theorem mock_random_in_range (d : jsstring) (lat lon : R) (g : Rand) (key : jsstring)
    (v : R) :
  (forall n, 0 <= g n < 1) ->
  let out := fst (generateMockPowerData d lat lon g) in
  (lookup (WS10M out) key = Some v -> 3 <= v < 8) /\
  (lookup (PRECTOTCORR out) key = Some v -> 0 <= v < 2).
Proof.
  intros Hg; cbv zeta; unfold generateMockPowerData.
  destruct (mock_loop_random d lat lon (seq 0 24)
              (mkPowerParameter (Some []) None None (Some []) (Some []) (Some []) (Some []), g))
    as [(l1 & E1 & H1) (l2 & E2 & H2)].
  - exact Hg.
  - exists []; split; [reflexivity|constructor].
  - exists []; split; [reflexivity|constructor].
  - rewrite E1, E2; rewrite Forall_forall in H1, H2.
    split; intros H; apply lookup_some_in in H; destruct H as [k' Hin].
    + destruct (H1 _ Hin) as (x & [= <-] & Hx); exact Hx.
    + destruct (H2 _ Hin) as (x & [= <-] & Hx); exact Hx.
Qed.

Lemma mock_random_in_range_witness :
  exists v,
    lookup (WS10M (fst (generateMockPowerData (str "20251017") (-33.8688) 151.2093
                          (fun _ => / 2)))) (str "20251017" ++ pad2 0) = Some v /\
    3 <= v < 8.
Proof.
  destruct (mock_first_wind (str "20251017") (-33.8688) 151.2093 (fun _ => / 2))
    as [l Hl].
  assert (H : lookup (WS10M (fst (generateMockPowerData (str "20251017") (-33.8688)
                                     151.2093 (fun _ => / 2))))
                     (str "20251017" ++ pad2 0) = Some (3 + / 2 * 5)).
  { rewrite Hl; apply lookup_head. }
  exists (3 + / 2 * 5); split; [exact H|].
  apply (proj1 (mock_random_in_range (str "20251017") (-33.8688) 151.2093 (fun _ => / 2)
                  (str "20251017" ++ pad2 0) (3 + / 2 * 5) (fun _ => ltac:(lra)))).
  exact H.
Defined.
